(** * DigiWin: a shallow embedding of the [digiwin] Clarity contract

    The contract is a number guessing game: [create-game] opens a game over a
    numeric range with an entry fee and a secret derived from chain data,
    [guess] charges the fee, records the attempt and either pays the pool to
    the winner or grows the pool.

    The embedding follows the contract text function by function.  Clarity's
    [uint] is an unsigned 128-bit integer whose arithmetic raises a runtime
    error on overflow and underflow; [asserts!], [unwrap!] and [try!] leave the
    enclosing function early; a public function that answers [(err ...)] or
    that hits a runtime error has every one of its writes rolled back. *)

From Stdlib Require Import NArith Lia String List.
From Stdlib Require Import Ascii.
From Stdlib.Strings Require Import Byte.
From stdpp Require Import gmap strings list fin_maps.

Open Scope N_scope.

(** ** Values of the contract *)

Definition principal : Type := string.

(** Largest [uint]: 2^128 - 1. *)
Definition u128_max : N := 340282366920938463463374607431768211455.

Inductive RuntimeError : Type :=
| ArithmeticOverflow
| ArithmeticUnderflow
| DivisionByZero.

Inductive response (A E : Type) : Type :=
| Ok (a : A)
| Err (e : E).
Arguments Ok {A E} a.
Arguments Err {A E} e.

(** The value type of the [games] map. *)
Record Game : Type := mkGame {
  creator : principal;
  secret_number : N;
  min_number : N;
  max_number : N;
  entry_fee : N;
  prize_pool : N;
  guess_count : N;
  winner : option principal;
  status : string;
  created_at : N
}.

(** An element of the [game-guesses] list: [{player, guess, timestamp}]. *)
Record GuessAttempt : Type := mkGuessAttempt {
  ga_player : principal;
  ga_guess : N;
  ga_timestamp : N
}.

(** What [print] emits: [{event: "game-won", game-id, winner, prize}]. *)
Record Event : Type := mkEvent {
  ev_event : string;
  ev_game_id : N;
  ev_winner : principal;
  ev_prize : N
}.

(** The data var, the three data maps, the STX ledger the contract moves
    funds on, and the log of printed events. *)
Record State : Type := mkState {
  total_games : N;
  games : gmap N Game;
  player_guesses : gmap (N * principal) (list N);
  game_guesses : gmap N (list GuessAttempt);
  stx_balances : gmap principal N;
  events : list Event
}.

(** What the host supplies to a call: the sender, the contract's own
    principal (what [tx-sender] is inside [as-contract]), the block height and
    the header hashes of the chain. *)
Record Env : Type := mkEnv {
  tx_sender : principal;
  contract_principal : principal;
  block_height : N;
  header_hash : N -> option (list byte)
}.

(** [(as-contract e)]: evaluate [e] with the contract as [tx-sender]. *)
Definition as_contract (env : Env) : Env :=
  {| tx_sender := contract_principal env;
     contract_principal := contract_principal env;
     block_height := block_height env;
     header_hash := header_hash env |}.

(** ** Error constants *)

Definition ERR_UNAUTHORIZED {A} : response A N := Err 100.
Definition ERR_GAME_NOT_FOUND {A} : response A N := Err 101.
Definition ERR_GAME_ALREADY_WON {A} : response A N := Err 102.
Definition ERR_INVALID_GUESS {A} : response A N := Err 103.
Definition ERR_TRANSFER_FAILED {A} : response A N := Err 104.
Definition ERR_INVALID_PARAMS {A} : response A N := Err 105.
Definition ERR_GAME_EXPIRED {A} : response A N := Err 106.
Definition ERR_ALREADY_GUESSED {A} : response A N := Err 107.
Definition ERR_TOO_MANY_GUESSES {A} : response A N := Err 108.

(** ** Execution of a function body

    A body of a public function with response type [(response R uint)] either
    goes on with a value, leaves the function early with a response, or stops
    on a runtime error. *)

Inductive outcome (R A : Type) : Type :=
| Value (a : A) (s : State)
| Return (r : response R N) (s : State)
| Runtime (e : RuntimeError).
Arguments Value {R A} a s.
Arguments Return {R A} r s.
Arguments Runtime {R A} e.

Definition M (R A : Type) : Type := State -> outcome R A.

Definition ret {R A} (a : A) : M R A := fun s => Value a s.

Definition bind {R A B} (c : M R A) (k : A -> M R B) : M R B :=
  fun s =>
    match c s with
    | Value a s' => k a s'
    | Return r s' => Return r s'
    | Runtime e => Runtime e
    end.

Declare Scope clar_scope.
Delimit Scope clar_scope with clar.
Notation "'let*' x ':=' c 'in' k" := (bind c (fun x => k))
  (at level 10, x name, c at level 100, k at level 200) : clar_scope.
Open Scope clar_scope.

Definition exit {R A} (r : response R N) : M R A := fun s => Return r s.
Definition runtime_error {R A} (e : RuntimeError) : M R A := fun _ => Runtime e.

(** [(unwrap! opt thrown)], [(asserts! b thrown)], [(try! resp)]. *)
Definition unwrap_bang {R A} (o : option A) (thrown : response R N) : M R A :=
  match o with
  | Some a => ret a
  | None => exit thrown
  end.

Definition asserts_bang {R} (b : bool) (thrown : response R N) : M R bool :=
  if b then ret true else exit thrown.

Definition try_bang {R A} (r : response A N) : M R A :=
  match r with
  | Ok a => ret a
  | Err e => exit (Err e)
  end.

(** Checked [uint] arithmetic. *)
Definition uint_add {R} (a b : N) : M R N :=
  if a + b <=? u128_max then ret (a + b) else runtime_error ArithmeticOverflow.

Definition uint_sub {R} (a b : N) : M R N :=
  if b <=? a then ret (a - b) else runtime_error ArithmeticUnderflow.

Definition uint_mod {R} (a b : N) : M R N :=
  if b =? 0 then runtime_error DivisionByZero else ret (a mod b).

(** ** Sequences and buffers *)

(** [(slice? seq left right)]. *)
Definition slice {A} (l : list A) (left right : N) : option (list A) :=
  if (right <? left) || (N.of_nat (length l) <? right) then None
  else Some (take (N.to_nat (right - left)) (drop (N.to_nat left) l)).

(** [(as-max-len? seq n)]. *)
Definition as_max_len {A} (l : list A) (n : N) : option (list A) :=
  if N.of_nat (length l) <=? n then Some l else None.

(** [(append seq x)]. *)
Definition append {A} (l : list A) (x : A) : list A := l ++ [x].

(** [(buff-to-uint-le buf)]: the first byte is the least significant one. *)
Fixpoint buff_to_uint_le (buf : list byte) : N :=
  match buf with
  | [] => 0
  | b :: rest => Byte.to_N b + 256 * buff_to_uint_le rest
  end.

(** [(get-block-info? header-hash h)]: only blocks before the current one. *)
Definition get_block_info_header_hash (env : Env) (h : N) : option (list byte) :=
  if h <? block_height env then header_hash env h else None.

(** ** State accessors *)

Definition var_get_total_games {R} : M R N := fun s => Value (total_games s) s.

Definition var_set_total_games {R} (n : N) : M R bool := fun s =>
  Value true {| total_games := n; games := games s;
                player_guesses := player_guesses s;
                game_guesses := game_guesses s;
                stx_balances := stx_balances s; events := events s |}.

Definition map_get_games {R} (game_id : N) : M R (option Game) :=
  fun s => Value (games s !! game_id) s.

Definition map_set_games {R} (game_id : N) (g : Game) : M R bool := fun s =>
  Value true {| total_games := total_games s; games := <[game_id := g]> (games s);
                player_guesses := player_guesses s;
                game_guesses := game_guesses s;
                stx_balances := stx_balances s; events := events s |}.

Definition map_get_player_guesses {R} (key : N * principal) : M R (option (list N)) :=
  fun s => Value (player_guesses s !! key) s.

Definition map_set_player_guesses {R} (key : N * principal) (l : list N) : M R bool :=
  fun s =>
  Value true {| total_games := total_games s; games := games s;
                player_guesses := <[key := l]> (player_guesses s);
                game_guesses := game_guesses s;
                stx_balances := stx_balances s; events := events s |}.

Definition map_get_game_guesses {R} (game_id : N) : M R (option (list GuessAttempt)) :=
  fun s => Value (game_guesses s !! game_id) s.

Definition map_set_game_guesses {R} (game_id : N) (l : list GuessAttempt) : M R bool :=
  fun s =>
  Value true {| total_games := total_games s; games := games s;
                player_guesses := player_guesses s;
                game_guesses := <[game_id := l]> (game_guesses s);
                stx_balances := stx_balances s; events := events s |}.

Definition print {R} (e : Event) : M R Event := fun s =>
  Value e {| total_games := total_games s; games := games s;
             player_guesses := player_guesses s;
             game_guesses := game_guesses s;
             stx_balances := stx_balances s; events := events s ++ [e] |}.

(** ** The STX ledger *)

Definition stx_get_balance (p : principal) (s : State) : N :=
  default 0 (stx_balances s !! p).

Definition move_stx (amount : N) (sender recipient : principal)
    (b : gmap principal N) : gmap principal N :=
  let b' := <[sender := default 0 (b !! sender) - amount]> b in
  <[recipient := default 0 (b' !! recipient) + amount]> b'.

(** [(stx-transfer? amount sender recipient)]: [(err u3)] for a zero amount,
    [(err u2)] when sender and recipient coincide, [(err u4)] when the sender
    is not the current [tx-sender], [(err u1)] when the sender's balance is
    too small, [(ok true)] after moving the funds otherwise. *)
Definition stx_transfer {R} (env : Env) (amount : N) (sender recipient : principal)
    : M R (response bool N) :=
  fun s =>
    if amount =? 0 then Value (Err 3) s
    else if bool_decide (sender = recipient) then Value (Err 2) s
    else if negb (bool_decide (sender = tx_sender env)) then Value (Err 4) s
    else if stx_get_balance sender s <? amount then Value (Err 1) s
    else Value (Ok true)
           {| total_games := total_games s; games := games s;
              player_guesses := player_guesses s;
              game_guesses := game_guesses s;
              stx_balances := move_stx amount sender recipient (stx_balances s);
              events := events s |}.

(** ** Public functions *)

Definition create_game (env : Env) (min_number max_number entry_fee : N)
    : M N (response N N) :=
  let* game_id := var_get_total_games in
  let* prev_height := uint_sub (block_height env) 1 in
  let* block_hash := unwrap_bang (get_block_info_header_hash env prev_height) (Err 109) in
  let* width := uint_sub max_number min_number in
  let* range := uint_add width 1 in
  let* hash_bytes := unwrap_bang (slice block_hash 0 16) (Err 111) in
  let* hash_bytes_16 := unwrap_bang (as_max_len hash_bytes 16) (Err 112) in
  let random_seed := N.lxor (buff_to_uint_le hash_bytes_16) (block_height env) in
  let* remainder := uint_mod random_seed range in
  let* secret := uint_add remainder min_number in
  let* _ := asserts_bang (min_number <=? max_number) ERR_INVALID_PARAMS in
  let* _ := map_set_games game_id
    {| creator := tx_sender env;
       secret_number := secret;
       min_number := min_number;
       max_number := max_number;
       entry_fee := entry_fee;
       prize_pool := 0;
       guess_count := 0;
       winner := None;
       status := "active";
       created_at := block_height env |} in
  let* next_id := uint_add game_id 1 in
  let* _ := var_set_total_games next_id in
  ret (Ok game_id).

(** The two [merge] updates of a game tuple in [guess]. *)
Definition merge_won (game : Game) (count : N) (w : principal) : Game :=
  {| creator := creator game;
     secret_number := secret_number game;
     min_number := min_number game;
     max_number := max_number game;
     entry_fee := entry_fee game;
     prize_pool := 0;
     guess_count := count;
     winner := Some w;
     status := "won";
     created_at := created_at game |}.

Definition merge_continue (game : Game) (pool count : N) : Game :=
  {| creator := creator game;
     secret_number := secret_number game;
     min_number := min_number game;
     max_number := max_number game;
     entry_fee := entry_fee game;
     prize_pool := pool;
     guess_count := count;
     winner := winner game;
     status := status game;
     created_at := created_at game |}.

Definition guess (env : Env) (game_id number : N) : M bool (response bool N) :=
  let* stored := map_get_games game_id in
  let* game := unwrap_bang stored ERR_GAME_NOT_FOUND in
  let current_pool := prize_pool game in
  let secret := secret_number game in
  let* logged := map_get_game_guesses game_id in
  let current_guesses := default [] logged in
  let* recorded := map_get_player_guesses (game_id, tx_sender env) in
  let player_guess_list := default [] recorded in
  let* _ := asserts_bang (String.eqb (status game) "active") ERR_GAME_ALREADY_WON in
  let* _ := asserts_bang ((min_number game <=? number) && (number <=? max_number game))
              ERR_INVALID_GUESS in
  let* _ := (if 0 <? entry_fee game
             then
               let* charged := stx_transfer env (entry_fee game) (tx_sender env)
                                 (tx_sender (as_contract env)) in
               try_bang charged
             else ret true) in
  let* player_list := unwrap_bang (as_max_len (append player_guess_list number) 10)
                        ERR_TOO_MANY_GUESSES in
  let* _ := map_set_player_guesses (game_id, tx_sender env) player_list in
  let* game_list := unwrap_bang
                      (as_max_len
                         (append current_guesses
                            {| ga_player := tx_sender env;
                               ga_guess := number;
                               ga_timestamp := block_height env |}) 1000)
                      ERR_TOO_MANY_GUESSES in
  let* _ := map_set_game_guesses game_id game_list in
  if number =? secret then
    let* final_pool := uint_add current_pool (entry_fee game) in
    let winner := tx_sender env in
    let* paid := stx_transfer (as_contract env) final_pool
                   (tx_sender (as_contract env)) winner in
    let* _ := try_bang paid in
    let* count := uint_add (guess_count game) 1 in
    let* _ := map_set_games game_id (merge_won game count winner) in
    let* _ := print {| ev_event := "game-won"; ev_game_id := game_id;
                       ev_winner := winner; ev_prize := final_pool |} in
    ret (Ok true)
  else
    let* pool := uint_add current_pool (entry_fee game) in
    let* count := uint_add (guess_count game) 1 in
    let* _ := map_set_games game_id (merge_continue game pool count) in
    ret (Ok false).

(** ** Read-only functions *)

Definition get_game_info {R} (game_id : N) : M R (option Game) :=
  map_get_games game_id.

(** [get] on an optional tuple answers [none] for [none] and [(some field)]
    for [(some tuple)]. *)
Definition get_game_winner {R} (game_id : N) : M R (option (option principal)) :=
  let* stored := map_get_games game_id in
  ret (winner <$> stored).

Definition get_guess_count {R} (game_id : N) : M R (option N) :=
  let* stored := map_get_games game_id in
  ret (guess_count <$> stored).

Definition get_prize_pool {R} (game_id : N) : M R (option N) :=
  let* stored := map_get_games game_id in
  ret (prize_pool <$> stored).

Definition get_total_games {R} : M R (response N N) :=
  let* total := var_get_total_games in
  ret (Ok total).

(** The error branch wraps the constant, itself an [(err u101)], in [err]. *)
Definition is_game_active {R} (game_id : N)
    : M R (response bool (response Empty_set N)) :=
  let* stored := map_get_games game_id in
  match stored with
  | Some game => ret (Ok (String.eqb (status game) "active"))
  | None => ret (Err ERR_GAME_NOT_FOUND)
  end.

Definition get_player_guesses {R} (game_id : N) (player : principal) : M R (list N) :=
  let* recorded := map_get_player_guesses (game_id, player) in
  ret (default [] recorded).

(** ** Transactions

    A call of a public function commits its writes when the function answers
    [(ok v)] and leaves the state as it was when it answers [(err e)] or stops
    on a runtime error. *)

Inductive TxResult (R : Type) : Type :=
| TxOk (v : R)
| TxErr (code : N)
| TxAbort (e : RuntimeError).
Arguments TxOk {R} v.
Arguments TxErr {R} code.
Arguments TxAbort {R} e.

Definition call_public {R} (body : M R (response R N)) (s : State)
    : TxResult R * State :=
  match body s with
  | Value (Ok v) s' => (TxOk v, s')
  | Return (Ok v) s' => (TxOk v, s')
  | Value (Err e) _ => (TxErr e, s)
  | Return (Err e) _ => (TxErr e, s)
  | Runtime e => (TxAbort e, s)
  end.

(** A read-only call: the value the function answers, if it answers one. *)
Definition call_read_only {A} (body : M Empty_set A) (s : State) : option A :=
  match body s with
  | Value a _ => Some a
  | _ => None
  end.

Inductive Call : Type :=
| CreateGame (min_number max_number entry_fee : N)
| Guess (game_id number : N).

Inductive CallResult : Type :=
| Created (r : TxResult N)
| Guessed (r : TxResult bool).

Definition exec_call (env : Env) (c : Call) (s : State) : CallResult * State :=
  match c with
  | CreateGame lo hi fee =>
      let '(r, s') := call_public (create_game env lo hi fee) s in (Created r, s')
  | Guess game_id number =>
      let '(r, s') := call_public (guess env game_id number) s in (Guessed r, s')
  end.

(** The transactions of a chain, in the order they are accepted. *)
Fixpoint run (txs : list (Env * Call)) (s : State) : list CallResult * State :=
  match txs with
  | [] => ([], s)
  | (env, c) :: rest =>
      let '(r, s') := exec_call env c s in
      let '(rs, s'') := run rest s' in
      (r :: rs, s'')
  end.

(** The contract as deployed: no game, empty maps, some STX ledger. *)
Definition init_state (balances : gmap principal N) : State :=
  {| total_games := 0; games := ∅; player_guesses := ∅; game_guesses := ∅;
     stx_balances := balances; events := [] |}.

(** The ids answered by the successful creations of a run, in order. *)
Fixpoint created_ids (rs : list CallResult) : list N :=
  match rs with
  | [] => []
  | Created (TxOk game_id) :: rest => game_id :: created_ids rest
  | _ :: rest => created_ids rest
  end.

(** ** Derived notions used by the statements *)

(** The guesses a player has on record for a game, and the log of a game,
    as [guess] reads them: [(default-to (list) (map-get? ...))]. *)
Definition recorded (s : State) (game_id : N) (player : principal) : list N :=
  default [] (player_guesses s !! (game_id, player)).

Definition logged (s : State) (game_id : N) : list GuessAttempt :=
  default [] (game_guesses s !! game_id).

Definition attempt (env : Env) (number : N) : GuessAttempt :=
  {| ga_player := tx_sender env; ga_guess := number;
     ga_timestamp := block_height env |}.

(** The ledger after the fee step of [guess]. *)
Definition pay_fee (env : Env) (game : Game) (b : gmap principal N)
    : gmap principal N :=
  if 0 <? entry_fee game
  then move_stx (entry_fee game) (tx_sender env) (contract_principal env) b
  else b.

(** The record [create_game] stores. *)
Definition new_game (env : Env) (lo hi fee : N) (hash : list byte) : Game :=
  {| creator := tx_sender env;
     secret_number :=
       N.lxor (buff_to_uint_le (take 16 hash)) (block_height env)
         mod (hi - lo + 1) + lo;
     min_number := lo; max_number := hi; entry_fee := fee;
     prize_pool := 0; guess_count := 0; winner := None;
     status := "active"; created_at := block_height env |}.

(** The state a winning [guess] commits. *)
Definition won_state (env : Env) (s : State) (game_id number : N) (game : Game)
    : State :=
  {| total_games := total_games s;
     games :=
       <[game_id := merge_won game (guess_count game + 1) (tx_sender env)]> (games s);
     player_guesses :=
       <[(game_id, tx_sender env) := recorded s game_id (tx_sender env) ++ [number]]>
         (player_guesses s);
     game_guesses :=
       <[game_id := logged s game_id ++ [attempt env number]]> (game_guesses s);
     stx_balances :=
       move_stx (prize_pool game + entry_fee game) (contract_principal env)
         (tx_sender env) (pay_fee env game (stx_balances s));
     events :=
       events s ++ [ {| ev_event := "game-won"; ev_game_id := game_id;
                        ev_winner := tx_sender env;
                        ev_prize := prize_pool game + entry_fee game |} ] |}.

(** The state a missing [guess] commits. *)
Definition missed_state (env : Env) (s : State) (game_id number : N) (game : Game)
    : State :=
  {| total_games := total_games s;
     games :=
       <[game_id := merge_continue game (prize_pool game + entry_fee game)
                      (guess_count game + 1)]> (games s);
     player_guesses :=
       <[(game_id, tx_sender env) := recorded s game_id (tx_sender env) ++ [number]]>
         (player_guesses s);
     game_guesses :=
       <[game_id := logged s game_id ++ [attempt env number]]> (game_guesses s);
     stx_balances := pay_fee env game (stx_balances s);
     events := events s |}.

(** The state [guess] has reached when it leaves on a full history: the fee
    is already in the contract's account. *)
Definition charged_state (env : Env) (s : State) (game : Game) : State :=
  {| total_games := total_games s; games := games s;
     player_guesses := player_guesses s; game_guesses := game_guesses s;
     stx_balances := pay_fee env game (stx_balances s); events := events s |}.

Definition secret_in_range (g : Game) : Prop :=
  min_number g <= secret_number g <= max_number g.

Definition games_in_range (s : State) : Prop :=
  forall game_id g, games s !! game_id = Some g -> secret_in_range g.

(** ** Sample chain data *)

Definition deployer : principal := "deployer".
Definition wallet_1 : principal := "wallet_1".
Definition wallet_2 : principal := "wallet_2".

(** A 32-byte header hash whose low 16 bytes read 263 little-endian. *)
Definition sample_hash : list byte := [x07; x01] ++ repeat x00 30.

Definition simnet_env (who : principal) (height : N) : Env :=
  {| tx_sender := who; contract_principal := "deployer.digiwin";
     block_height := height; header_hash := fun _ => Some sample_hash |}.

Definition sample_ledger : gmap principal N :=
  {[ wallet_1 := 5000000; wallet_2 := 1000 ]}.

(** Ten guesses of one player on game 0, none of them 59. *)
Definition ten_misses (who : principal) : list (Env * Call) :=
  (fun n => (simnet_env who 6, Guess 0 n)) <$> [1; 2; 3; 4; 5; 6; 7; 8; 9; 10].

(** Game 0 over 1..100 with fee 100, created at height 5: its secret is
    [(263 xor 5) mod 100 + 1 = 59]. *)
Definition paid_game_open : State :=
  snd (run [(simnet_env deployer 5, CreateGame 1 100 100)] (init_state sample_ledger)).

Definition paid_game_full (who : principal) : State :=
  snd (run ((simnet_env deployer 5, CreateGame 1 100 100) :: ten_misses who)
         (init_state sample_ledger)).

(** Game 0 over 1..100 with no fee. *)
Definition free_game_open : State :=
  snd (run [(simnet_env deployer 5, CreateGame 1 100 0)] (init_state sample_ledger)).

Definition free_game_full : State :=
  snd (run ((simnet_env deployer 5, CreateGame 1 100 0) :: ten_misses wallet_1)
         (init_state sample_ledger)).

(** Game 0 over 42..42 with fee 1000000, won by [wallet_1]. *)
Definition single_number_won : State :=
  snd (run [(simnet_env deployer 5, CreateGame 42 42 1000000);
            (simnet_env wallet_1 6, Guess 0 42)] (init_state sample_ledger)).

Definition sample_game (fee pool count : N) : Game :=
  {| creator := deployer; secret_number := 59; min_number := 1;
     max_number := 100; entry_fee := fee; prize_pool := pool;
     guess_count := count; winner := None; status := "active";
     created_at := 5 |}.

(** ** Notions for runs of calls *)

(** Status, winner and pool of a game agree: an active game has no winner;
    a won game has one and an empty pool. *)
Definition game_consistent (g : Game) : Prop :=
  (status g = "active"%string /\ winner g = None) \/
  (status g = "won"%string /\ (exists w, winner g = Some w) /\ prize_pool g = 0).

Definition guess_in_bounds (g : Game) (n : N) : Prop :=
  min_number g <= n <= max_number g.

(** What the calls keep true of the state of the deployed contract. *)
Record well_formed (s : State) : Prop := mkWellFormed {
  wf_dense : forall game_id, is_Some (games s !! game_id) <-> game_id < total_games s;
  wf_game : forall game_id g,
    games s !! game_id = Some g ->
    game_consistent g /\
    guess_count g = N.of_nat (length (logged s game_id)) /\
    forall w, winner g = Some w ->
              last (recorded s game_id w) = Some (secret_number g);
  wf_logged : forall game_id,
    N.of_nat (length (logged s game_id)) <= 1000 /\
    (games s !! game_id = None -> logged s game_id = []);
  wf_recorded : forall game_id player,
    N.of_nat (length (recorded s game_id player)) <= 10 /\
    (games s !! game_id = None -> recorded s game_id player = []) /\
    forall g, games s !! game_id = Some g ->
              Forall (guess_in_bounds g) (recorded s game_id player);
  wf_events :
    NoDup (ev_game_id <$> events s) /\
    forall e, e ∈ events s ->
      exists g, games s !! ev_game_id e = Some g /\
                status g = "won"%string /\ winner g = Some (ev_winner e)
}.

(** How a stored game may differ later on: its creator, secret, bounds, fee
    and creation height are fixed, its count never decreases, a game that is
    no longer active is fixed altogether, and the pool of a game that is
    still active has not decreased. *)
Definition evolves (g g' : Game) : Prop :=
  creator g' = creator g /\
  secret_number g' = secret_number g /\
  min_number g' = min_number g /\
  max_number g' = max_number g /\
  entry_fee g' = entry_fee g /\
  created_at g' = created_at g /\
  guess_count g <= guess_count g' /\
  (status g <> "active"%string -> g' = g) /\
  (status g' = "active"%string -> prize_pool g <= prize_pool g').

(** The sum of the pools of all stored games. *)
Definition total_pool (m : gmap N Game) : N :=
  map_fold (fun _ g acc => prize_pool g + acc) 0 m.

(** The event a winning guess prints. *)
Definition won_event (env : Env) (game_id : N) (game : Game) : Event :=
  {| ev_event := "game-won"; ev_game_id := game_id; ev_winner := tx_sender env;
     ev_prize := prize_pool game + entry_fee game |}.

(** * The driver script *)

(** A JavaScript string: its UTF-16 code units. *)
Definition js_string : Type := list N.

(** The code units of an ASCII literal. *)
Definition units (s : string) : js_string :=
  (fun c => N_of_ascii c) <$> list_ascii_of_string s.

(** White space and line terminators, what [String.prototype.trim] strips:
    TAB, LF, VT, FF, CR, SP, NBSP, U+1680, U+2000..U+200A, U+2028, U+2029,
    U+202F, U+205F, U+3000, U+FEFF. *)
Definition is_white_space (c : N) : bool :=
  (c =? 9) || (c =? 10) || (c =? 11) || (c =? 12) || (c =? 13) || (c =? 32)
  || (c =? 160) || (c =? 5760) || ((8192 <=? c) && (c <=? 8202))
  || (c =? 8232) || (c =? 8233) || (c =? 8239) || (c =? 8287)
  || (c =? 12288) || (c =? 65279).

Fixpoint trim_start (s : js_string) : js_string :=
  match s with
  | c :: rest => if is_white_space c then trim_start rest else s
  | [] => []
  end.

Definition trim (s : js_string) : js_string :=
  reverse (trim_start (reverse (trim_start s))).

Fixpoint starts_with (s prefix : js_string) {struct prefix} : bool :=
  match prefix, s with
  | [], _ => true
  | p :: prefix', c :: s' => (c =? p) && starts_with s' prefix'
  | _ :: _, [] => false
  end.

(** [normalizeSenderKey] of [deriveSenderFromMnemonic]. *)
Definition normalizeSenderKey (key : js_string) : js_string :=
  let k := trim (match key with [] => units "" | _ => key end) in
  if starts_with k (units "0x") || starts_with k (units "0X") then drop 2 k else k.

Definition is_hex_digit (c : N) : bool :=
  ((48 <=? c) && (c <=? 57)) || ((65 <=? c) && (c <=? 70))
  || ((97 <=? c) && (c <=? 102)).

(** ** The arguments of the process *)

(** [Array.prototype.find]. *)
Fixpoint js_find {A} (p : A -> bool) (l : list A) : option A :=
  match l with
  | [] => None
  | x :: rest => if p x then Some x else js_find p rest
  end.

(** [s.split(sep)] for a separator of one code unit. *)
Fixpoint js_split (sep : N) (s : js_string) : list js_string :=
  match s with
  | [] => [[]]
  | c :: rest =>
      if c =? sep then [] :: js_split sep rest
      else match js_split sep rest with
           | piece :: pieces => (c :: piece) :: pieces
           | [] => [[c]]
           end
  end.

(** The constant [MODE], from the arguments of the process:
    [argv.find(arg => arg.startsWith("--mode="))?.split("=")[1] || "info"]. *)
Definition MODE (argv : list js_string) : js_string :=
  match js_find (fun arg => starts_with arg (units "--mode=")) argv with
  | None => units "info"
  | Some arg =>
      match js_split 61 arg !! 1%nat with
      | Some (c :: rest) => c :: rest
      | _ => units "info"
      end
  end.

(** ** Calls to the node, with retries *)

(** How an awaited promise settles. *)
Inductive Settled (A : Type) : Type :=
| Fulfilled (a : A)
| Rejected (reason : string).
Arguments Fulfilled {A} a.
Arguments Rejected {A} reason.

(** How a function of the script ends. *)
Inductive Completion (A : Type) : Type :=
| Returns (a : A)
| Throws (message : string).
Arguments Returns {A} a.
Arguments Throws {A} message.

(** What a function of the script does to the outside, in order: a
    pass through the [try] block, a warning that names the attempt, a pause,
    a log line. *)
Inductive Effect : Type :=
| Attempt
| Warn (attempt : nat)
| Delay (ms : N)
| Log.

Definition maxRetries : nat := 5.

(** The [type] field of a Clarity value, a number or a string according to
    the library, and the fields [readTotalGames] reads of a response. *)
Inductive JsTag : Type :=
| NumberTag (n : N)
| StringTag (s : string).

Record ReadOnlyResult : Type := mkReadOnlyResult {
  res_type : JsTag;
  res_value : N
}.

Definition is_uint_tag (t : JsTag) : bool :=
  match t with
  | NumberTag n => n =? 1
  | StringTag _ => false
  end.

(** [readTotalGames].  [fetch i] is how the [i]-th call of
    [fetchCallReadOnlyFunction] settles; [Number] is JavaScript's conversion
    of the value to a number and [zero] is the number 0. *)
Fixpoint readTotalGames_loop {J} (Number : N -> J) (zero : J)
    (fetch : nat -> Settled ReadOnlyResult) (fuel i : nat)
    : list Effect * Completion J :=
  match fuel with
  | O => ([], Throws "Failed to read total games after multiple attempts")
  | S fuel' =>
      if (i <? maxRetries)%nat then
        match fetch i with
        | Fulfilled res =>
            ([Attempt],
             Returns (if is_uint_tag (res_type res) then Number (res_value res)
                      else zero))
        | Rejected _ =>
            let '(later, c) := readTotalGames_loop Number zero fetch fuel' (S i) in
            ([Attempt; Warn (i + 1)]
               ++ (if (i <? maxRetries - 1)%nat then [Delay 2000] else [])
               ++ later, c)
        end
      else ([], Throws "Failed to read total games after multiple attempts")
  end.

Definition readTotalGames {J} (Number : N -> J) (zero : J)
    (fetch : nat -> Settled ReadOnlyResult) : list Effect * Completion J :=
  readTotalGames_loop Number zero fetch (S maxRetries) 0.

(** What [broadcastTransaction] resolves to: a string, or an object whose
    fields, when present, are strings. *)
Inductive BroadcastResponse : Type :=
| ResponseText (s : string)
| ResponseObject (txid transactionId txId tx_id error reason : option string).

(** JavaScript truthiness of an optional string field. *)
Definition truthy (field : option string) : bool :=
  match field with
  | Some s => negb (String.eqb s "")
  | None => false
  end.

(** [a || b] on optional string fields. *)
Definition js_or (a b : option string) : option string :=
  if truthy a then a else b.

Definition txid_of (resp : BroadcastResponse) : string :=
  match resp with
  | ResponseText s => s
  | ResponseObject txid transactionId txId tx_id _ _ =>
      default "unknown-txid"%string
        (js_or (js_or (js_or (js_or txid transactionId) txId) tx_id)
           (Some "unknown-txid"%string))
  end.

Definition has_error (resp : BroadcastResponse) : bool :=
  match resp with
  | ResponseText _ => false
  | ResponseObject _ _ _ _ error _ => truthy error
  end.

(** [contractCall].  [broadcast i] is how building and broadcasting the
    transaction settles at the [i]-th attempt. *)
Fixpoint contractCall_loop (functionName : string)
    (broadcast : nat -> Settled BroadcastResponse) (fuel i : nat)
    : list Effect * Completion string :=
  match fuel with
  | O => ([], Throws ("Broadcast failed for " ++ functionName ++ " after 5 attempts"))
  | S fuel' =>
      if (i <? maxRetries)%nat then
        let retry :=
          let '(later, c) := contractCall_loop functionName broadcast fuel' (S i) in
          ([Attempt; Warn (i + 1)]
             ++ (if (i <? maxRetries - 1)%nat then [Delay 2000] else [])
             ++ later, c) in
        match broadcast i with
        | Fulfilled resp =>
            if has_error resp then retry
            else ([Attempt; Log], Returns (txid_of resp))
        | Rejected _ => retry
        end
      else ([], Throws ("Broadcast failed for " ++ functionName ++ " after 5 attempts"))
  end.

Definition contractCall (functionName : string)
    (broadcast : nat -> Settled BroadcastResponse) : list Effect * Completion string :=
  let '(trace, c) := contractCall_loop functionName broadcast (S maxRetries) 0 in
  (Log :: trace, c).

(** Requests made and time paused in a trace. *)
Fixpoint requests (trace : list Effect) : nat :=
  match trace with
  | [] => 0
  | Attempt :: rest => S (requests rest)
  | _ :: rest => requests rest
  end.

Fixpoint paused (trace : list Effect) : N :=
  match trace with
  | [] => 0
  | Delay ms :: rest => ms + paused rest
  | _ :: rest => paused rest
  end.

(** A broadcast that [contractCall] takes as done. *)
Definition accepted (o : Settled BroadcastResponse) : bool :=
  match o with
  | Fulfilled resp => negb (has_error resp)
  | Rejected _ => false
  end.


(** The trace of [k] failed attempts from attempt [i] on, each followed by
    a pause. *)
Definition failed_attempts (i k : nat) : list Effect :=
  flat_map (fun j => [Attempt; Warn (j + 1); Delay 2000]) (seq i k).

(** Sample settlements for the functions of the script. *)
Definition flaky_fetch (i : nat) : Settled ReadOnlyResult :=
  match i with
  | 2%nat => Fulfilled {| res_type := NumberTag 1; res_value := 7 |}
  | _ => Rejected "timeout"
  end.

Definition failing_fetch (i : nat) : Settled ReadOnlyResult := Rejected "timeout".

Definition flaky_broadcast (i : nat) : Settled BroadcastResponse :=
  match i with
  | 0%nat =>
      Fulfilled (ResponseObject (Some "0xabc"%string) None None None
                   (Some "transaction rejected"%string) (Some "BadNonce"%string))
  | _ => Fulfilled (ResponseObject None (Some "0xdef"%string) None None None None)
  end.

(** * Verification *)

(** ** Proof steps *)

(** Run a function body one level further. *)
Ltac clar_step :=
  cbv beta iota zeta delta
    [call_public call_read_only guess create_game get_game_winner
     get_guess_count get_prize_pool get_total_games is_game_active
     get_player_guesses get_game_info bind ret exit runtime_error
     unwrap_bang asserts_bang try_bang uint_add uint_sub uint_mod
     var_get_total_games var_set_total_games map_get_games map_set_games
     map_get_player_guesses map_set_player_guesses map_get_game_guesses
     map_set_game_guesses print stx_transfer andb negb];
  cbn [total_games games player_guesses game_guesses stx_balances events].

Ltac clar_step_in H :=
  cbv beta iota zeta delta
    [call_public call_read_only guess create_game get_game_winner
     get_guess_count get_prize_pool get_total_games is_game_active
     get_player_guesses get_game_info bind ret exit runtime_error
     unwrap_bang asserts_bang try_bang uint_add uint_sub uint_mod
     var_get_total_games var_set_total_games map_get_games map_set_games
     map_get_player_guesses map_set_player_guesses map_get_game_guesses
     map_set_game_guesses print stx_transfer andb negb] in H;
  cbn [total_games games player_guesses game_guesses stx_balances events] in H.

(** Split a run of a body, given as a hypothesis, along every test it makes. *)
Ltac break_in H :=
  repeat (clar_step_in H;
          match type of H with
          | context [match ?x with _ => _ end] =>
              lazymatch x with
              | context [match _ with _ => _ end] => fail
              | _ => destruct x eqn:?
              end
          end; try discriminate H).

(** Decide one test of the body from the hypotheses at hand. *)
Ltac solve_test :=
  cbn [tx_sender as_contract contract_principal];
  match goal with
  | |- (_ <=? _) = true => apply N.leb_le; lia
  | |- (_ <=? _) = false => apply N.leb_gt; lia
  | |- (_ <? _) = true => apply N.ltb_lt; lia
  | |- (_ <? _) = false => apply N.ltb_ge; lia
  | |- (_ =? _) = true => apply N.eqb_eq; lia
  | |- (_ =? _) = false => apply N.eqb_neq; lia
  | |- String.eqb _ _ = true => apply String.eqb_eq; assumption
  | |- String.eqb _ _ = false => apply String.eqb_neq; assumption
  | |- bool_decide _ = true => apply bool_decide_eq_true_2; congruence
  | |- bool_decide _ = false => apply bool_decide_eq_false_2; congruence
  end.

Ltac settle :=
  match goal with
  | |- context [if ?b then _ else _] =>
      lazymatch b with
      | context [if _ then _ else _] => fail
      | _ => first [ replace b with true by (symmetry; solve_test)
                   | replace b with false by (symmetry; solve_test) ]
      end
  end; clar_step.

(** ** Sequences *)

Lemma slice_take {A} (l l' : list A) (n : N) :
  slice l 0 n = Some l' -> l' = take (N.to_nat n) l.
Proof.
  unfold slice. destruct (_ || _); [discriminate|].
  intros [= <-]. rewrite N.sub_0_r. reflexivity.
Qed.

Lemma as_max_len_Some {A} (l l' : list A) (n : N) :
  as_max_len l n = Some l' -> l' = l /\ N.of_nat (length l) <= n.
Proof.
  unfold as_max_len.
  destruct (N.leb_spec (N.of_nat (length l)) n); [|discriminate].
  intros [= <-]. auto.
Qed.

Lemma as_max_len_fits {A} (l : list A) (x : A) (n : N) :
  N.of_nat (length l) < n -> as_max_len (append l x) n = Some (l ++ [x]).
Proof.
  intros H. unfold as_max_len, append. rewrite length_app. cbn [length].
  destruct (N.leb_spec (N.of_nat (length l + 1)) n); [done|lia].
Qed.

Lemma as_max_len_full {A} (l : list A) (x : A) (n : N) :
  n <= N.of_nat (length l) -> as_max_len (append l x) n = None.
Proof.
  intros H. unfold as_max_len, append. rewrite length_app. cbn [length].
  destruct (N.leb_spec (N.of_nat (length l + 1)) n); [lia|done].
Qed.

(** ** The ledger *)

Lemma move_stx_sender amount a b (m : gmap principal N) :
  a <> b -> default 0 (move_stx amount a b m !! a) = default 0 (m !! a) - amount.
Proof.
  intros Hab. unfold move_stx.
  rewrite lookup_insert_ne by congruence. by rewrite lookup_insert_eq.
Qed.

Lemma move_stx_recipient amount a b (m : gmap principal N) :
  a <> b -> default 0 (move_stx amount a b m !! b) = default 0 (m !! b) + amount.
Proof.
  intros Hab. unfold move_stx.
  rewrite lookup_insert_eq. by rewrite lookup_insert_ne by congruence.
Qed.

Lemma pay_fee_sender env game (b : gmap principal N) :
  tx_sender env <> contract_principal env ->
  default 0 (pay_fee env game b !! tx_sender env)
  = default 0 (b !! tx_sender env) - entry_fee game.
Proof.
  intros Hc. unfold pay_fee. destruct (N.ltb_spec 0 (entry_fee game)).
  - by apply move_stx_sender.
  - lia.
Qed.

Lemma pay_fee_contract env game (b : gmap principal N) :
  tx_sender env <> contract_principal env ->
  default 0 (pay_fee env game b !! contract_principal env)
  = default 0 (b !! contract_principal env) + entry_fee game.
Proof.
  intros Hc. unfold pay_fee. destruct (N.ltb_spec 0 (entry_fee game)).
  - by apply move_stx_recipient.
  - lia.
Qed.

(** ** Transactions *)

(** A call that does not answer [(ok v)] commits nothing. *)
Lemma call_public_failed {R} (body : M R (response R N)) s r s' :
  call_public body s = (r, s') -> (forall v, r <> TxOk v) -> s' = s.
Proof.
  unfold call_public. intros H Hr.
  destruct (body s) as [[v|e] s1|[v|e] s1|e]; injection H as <- <-;
    first [done | by destruct (Hr v)].
Qed.

(** What a successful [create_game] has done. *)
Lemma create_game_ok env lo hi fee s game_id s' :
  call_public (create_game env lo hi fee) s = (TxOk game_id, s') ->
  exists hash,
    header_hash env (block_height env - 1) = Some hash /\
    lo <= hi /\ game_id = total_games s /\
    s' = {| total_games := total_games s + 1;
            games := <[total_games s := new_game env lo hi fee hash]> (games s);
            player_guesses := player_guesses s;
            game_guesses := game_guesses s;
            stx_balances := stx_balances s;
            events := events s |}.
Proof.
  intros H. break_in H.
  injection H as <- <-.
  apply slice_take in Heqo0 as ->.
  apply as_max_len_Some in Heqo1 as [-> _].
  unfold get_block_info_header_hash in Heqo.
  destruct (_ <? _) in Heqo; [|discriminate].
  exists l. split; [done|]. split; [by apply N.leb_le|]. split; [done|].
  reflexivity.
Qed.

(** What any [guess] call can have done to the games and the counter. *)
Lemma guess_shape env game_id number s r s' :
  call_public (guess env game_id number) s = (r, s') ->
  total_games s' = total_games s /\
  (games s' = games s \/
   exists game game',
     games s !! game_id = Some game /\
     games s' = <[game_id := game']> (games s) /\
     secret_number game' = secret_number game /\
     min_number game' = min_number game /\
     max_number game' = max_number game).
Proof.
  intros H. break_in H; injection H as <- <-;
    cbn [total_games games]; (split; [reflexivity|]);
    first [ by left | right; eexists _, _; repeat split; reflexivity ].
Qed.

(** ** Creation *)

(** C2.  With [min-number > max-number] the call never reaches the
    [asserts!] that answers [ERR_INVALID_PARAMS]: the binding of [range]
    subtracts first and the subtraction underflows, so the call stops on a
    runtime error (or, without a header hash for the previous block, answers
    [(err u109)]).  It never answers [(err u105)]; the state is left as it
    was. *)
Theorem create_game_inverted_range env s lo hi fee :
  hi < lo ->
  call_public (create_game env lo hi fee) s =
    (if block_height env =? 0 then TxAbort ArithmeticUnderflow
     else match header_hash env (block_height env - 1) with
          | Some _ => TxAbort ArithmeticUnderflow
          | None => TxErr 109
          end, s).
Proof.
  intros H. clar_step. unfold get_block_info_header_hash.
  destruct (N.eqb_spec (block_height env) 0) as [Hz|Hz].
  - rewrite Hz. reflexivity.
  - repeat settle.
    destruct (header_hash env (block_height env - 1)); clar_step; [|reflexivity].
    repeat settle. reflexivity.
Qed.

Lemma create_game_inverted_range_witness :
  call_public (create_game (simnet_env deployer 5) 100 10 100000)
    (init_state sample_ledger)
  = (TxAbort ArithmeticUnderflow, init_state sample_ledger).
Proof.
  apply (create_game_inverted_range (simnet_env deployer 5)
           (init_state sample_ledger) 100 10 100000).
  lia.
Defined.

(** C8.  A successful [create_game] stores, under the id it answers, a game
    whose secret is [min + (seed mod range)] with
    [range = max - min + 1] and [seed] the exclusive-or of the little-endian
    reading of the first 16 bytes of the previous block's header hash with
    the block height.  Any other successful call with the same hash, height
    and bounds stores the same secret, whatever its sender, fee and state. *)
Theorem create_game_secret env s lo hi fee game_id s' :
  call_public (create_game env lo hi fee) s = (TxOk game_id, s') ->
  exists hash game,
    header_hash env (block_height env - 1) = Some hash /\
    games s' !! game_id = Some game /\
    secret_number game
    = lo + N.lxor (buff_to_uint_le (take 16 hash)) (block_height env)
             mod (hi - lo + 1) /\
    forall env2 s2 fee2 game_id2 s2',
      block_height env2 = block_height env ->
      header_hash env2 (block_height env2 - 1) = Some hash ->
      call_public (create_game env2 lo hi fee2) s2 = (TxOk game_id2, s2') ->
      exists game2,
        games s2' !! game_id2 = Some game2 /\
        secret_number game2 = secret_number game.
Proof.
  intros H. apply create_game_ok in H as (hash & Hh & _ & -> & ->).
  exists hash, (new_game env lo hi fee hash). cbn [games].
  split; [done|]. split; [by rewrite lookup_insert_eq|].
  split; [cbn [new_game secret_number]; lia|].
  intros env2 s2 fee2 id2 s2' Hheight Hh2 H2.
  apply create_game_ok in H2 as (hash2 & Hh2' & _ & -> & ->).
  exists (new_game env2 lo hi fee2 hash2). cbn [games].
  split; [by rewrite lookup_insert_eq|].
  assert (hash2 = hash) as -> by congruence.
  cbn [new_game secret_number]. by rewrite Hheight.
Qed.

Lemma create_game_secret_witness :
  exists hash game,
    header_hash (simnet_env deployer 5) (block_height (simnet_env deployer 5) - 1)
    = Some hash /\
    games paid_game_open !! 0 = Some game /\
    secret_number game
    = 1 + N.lxor (buff_to_uint_le (take 16 hash))
            (block_height (simnet_env deployer 5)) mod (100 - 1 + 1) /\
    forall env2 s2 fee2 game_id2 s2',
      block_height env2 = block_height (simnet_env deployer 5) ->
      header_hash env2 (block_height env2 - 1) = Some hash ->
      call_public (create_game env2 1 100 fee2) s2 = (TxOk game_id2, s2') ->
      exists game2,
        games s2' !! game_id2 = Some game2 /\
        secret_number game2 = secret_number game.
Proof.
  apply (create_game_secret (simnet_env deployer 5) (init_state sample_ledger)
           1 100 100 0 paid_game_open).
  vm_compute. reflexivity.
Defined.

(** ** Guessing on an active game *)

Section GuessOnActiveGame.

Variables (env : Env) (s : State) (game_id number : N) (game : Game).

Hypothesis Hgame : games s !! game_id = Some game.
Hypothesis Hactive : status game = "active"%string.
Hypothesis Hrange : min_number game <= number <= max_number game.

(** The three ways through the body used below: a matching guess that is
    paid out, a guess that misses, and a guess that meets a full history. *)
Lemma guess_win_run :
  number = secret_number game ->
  tx_sender env <> contract_principal env ->
  entry_fee game <= stx_get_balance (tx_sender env) s ->
  N.of_nat (length (recorded s game_id (tx_sender env))) < 10 ->
  N.of_nat (length (logged s game_id)) < 1000 ->
  0 < prize_pool game + entry_fee game <= u128_max ->
  prize_pool game <= stx_get_balance (contract_principal env) s ->
  guess_count game + 1 <= u128_max ->
  call_public (guess env game_id number) s
  = (TxOk true, won_state env s game_id number game).
Proof using Hgame Hactive Hrange.
  destruct Hrange as [Hlo Hhi].
  intros Hn Hc Hfee Hrec Hlog [Hpos Hmax] Hpool Hcnt.
  unfold won_state, pay_fee.
  clar_step. rewrite Hgame. clar_step. repeat settle.
  fold (recorded s game_id (tx_sender env)). fold (logged s game_id).
  rewrite (as_max_len_fits _ _ _ Hrec).
  fold (attempt env number).
  rewrite (as_max_len_fits _ _ _ Hlog).
  destruct (N.ltb_spec 0 (entry_fee game)) as [Hf|Hf]; clar_step.
  - repeat settle.
    unfold stx_get_balance in *. cbn [stx_balances tx_sender as_contract].
    rewrite move_stx_recipient by done. repeat settle. reflexivity.
  - assert (entry_fee game = 0) as Hz by lia.
    rewrite Hz in *. rewrite N.add_0_r in *.
    repeat settle.
    unfold stx_get_balance in *. cbn [stx_balances tx_sender as_contract].
    repeat settle. reflexivity.
Qed.

Lemma guess_miss_run :
  number <> secret_number game ->
  entry_fee game = 0 \/
    (tx_sender env <> contract_principal env /\
     entry_fee game <= stx_get_balance (tx_sender env) s) ->
  N.of_nat (length (recorded s game_id (tx_sender env))) < 10 ->
  N.of_nat (length (logged s game_id)) < 1000 ->
  prize_pool game + entry_fee game <= u128_max ->
  guess_count game + 1 <= u128_max ->
  call_public (guess env game_id number) s
  = (TxOk false, missed_state env s game_id number game).
Proof using Hgame Hactive Hrange.
  destruct Hrange as [Hlo Hhi].
  intros Hn Hpay Hrec Hlog Hmax Hcnt.
  unfold missed_state, pay_fee.
  clar_step. rewrite Hgame. clar_step. repeat settle.
  fold (recorded s game_id (tx_sender env)). fold (logged s game_id).
  rewrite (as_max_len_fits _ _ _ Hrec).
  fold (attempt env number).
  rewrite (as_max_len_fits _ _ _ Hlog).
  destruct (N.ltb_spec 0 (entry_fee game)) as [Hf|Hf]; clar_step.
  - destruct Hpay as [Hz|[Hc Hfee]]; [lia|].
    unfold stx_get_balance in *. repeat settle. reflexivity.
  - repeat settle. reflexivity.
Qed.

Lemma guess_full_run :
  10 <= N.of_nat (length (recorded s game_id (tx_sender env))) ->
  entry_fee game = 0 \/
    (tx_sender env <> contract_principal env /\
     entry_fee game <= stx_get_balance (tx_sender env) s) ->
  guess env game_id number s
  = Return ERR_TOO_MANY_GUESSES (charged_state env s game).
Proof using Hgame Hactive Hrange.
  destruct Hrange as [Hlo Hhi].
  intros Hrec Hpay.
  unfold charged_state, pay_fee.
  clar_step. rewrite Hgame. clar_step. repeat settle.
  fold (recorded s game_id (tx_sender env)).
  rewrite (as_max_len_full _ _ _ Hrec).
  destruct (N.ltb_spec 0 (entry_fee game)) as [Hf|Hf]; clar_step.
  - destruct Hpay as [Hz|[Hc Hfee]]; [lia|].
    unfold stx_get_balance in *. repeat settle. reflexivity.
  - destruct s; reflexivity.
Qed.

(** C1, as amended.  On an active game, a guess equal to the secret answers
    [(ok true)] and commits in one step the payout of the previous pool plus
    the fee to the caller, pool 0, the caller as winner, status won and one
    more guess counted, provided the caller is not the contract and holds
    the fee, has fewer than 10 guesses on record (the game fewer than 1000),
    the pool plus the fee is positive and a [uint], the contract holds the
    pool, and the count can grow. *)
Theorem guess_win :
  number = secret_number game ->
  tx_sender env <> contract_principal env ->
  entry_fee game <= stx_get_balance (tx_sender env) s ->
  N.of_nat (length (recorded s game_id (tx_sender env))) < 10 ->
  N.of_nat (length (logged s game_id)) < 1000 ->
  0 < prize_pool game + entry_fee game <= u128_max ->
  prize_pool game <= stx_get_balance (contract_principal env) s ->
  guess_count game + 1 <= u128_max ->
  exists s',
    call_public (guess env game_id number) s = (TxOk true, s') /\
    stx_balances s'
    = move_stx (prize_pool game + entry_fee game) (contract_principal env)
        (tx_sender env) (pay_fee env game (stx_balances s)) /\
    stx_get_balance (tx_sender env) s'
    = stx_get_balance (tx_sender env) s - entry_fee game
      + (prize_pool game + entry_fee game) /\
    stx_get_balance (contract_principal env) s'
    = stx_get_balance (contract_principal env) s + entry_fee game
      - (prize_pool game + entry_fee game) /\
    games s' !! game_id
    = Some {| creator := creator game;
              secret_number := secret_number game;
              min_number := min_number game;
              max_number := max_number game;
              entry_fee := entry_fee game;
              prize_pool := 0;
              guess_count := guess_count game + 1;
              winner := Some (tx_sender env);
              status := "won";
              created_at := created_at game |}.
Proof using Hgame Hactive Hrange.
  intros Hn Hc Hfee Hrec Hlog Hpool Hhouse Hcnt.
  exists (won_state env s game_id number game).
  split; [by apply guess_win_run|].
  unfold stx_get_balance, won_state. cbn [stx_balances games].
  split; [reflexivity|]. split; [|split].
  - rewrite move_stx_recipient by congruence. by rewrite pay_fee_sender.
  - rewrite move_stx_sender by congruence. by rewrite pay_fee_contract.
  - by rewrite lookup_insert_eq.
Qed.

(** C4, as amended.  On an active game with pool [P] and fee [F], a guess
    in range that differs from the secret answers [(ok false)], makes the
    pool [P + F], counts one more guess and leaves every other field of the
    game as it was, provided the fee can be charged (it is 0, or the caller
    is not the contract and holds it), the caller has fewer than 10 guesses
    on record (the game fewer than 1000), and [P + F] and the new count are
    [uint]s. *)
Theorem guess_miss :
  number <> secret_number game ->
  entry_fee game = 0 \/
    (tx_sender env <> contract_principal env /\
     entry_fee game <= stx_get_balance (tx_sender env) s) ->
  N.of_nat (length (recorded s game_id (tx_sender env))) < 10 ->
  N.of_nat (length (logged s game_id)) < 1000 ->
  prize_pool game + entry_fee game <= u128_max ->
  guess_count game + 1 <= u128_max ->
  exists s',
    call_public (guess env game_id number) s = (TxOk false, s') /\
    games s' !! game_id
    = Some {| creator := creator game;
              secret_number := secret_number game;
              min_number := min_number game;
              max_number := max_number game;
              entry_fee := entry_fee game;
              prize_pool := prize_pool game + entry_fee game;
              guess_count := guess_count game + 1;
              winner := winner game;
              status := status game;
              created_at := created_at game |}.
Proof using Hgame Hactive Hrange.
  intros Hn Hpay Hrec Hlog Hmax Hcnt.
  exists (missed_state env s game_id number game).
  split; [by apply guess_miss_run|].
  unfold missed_state. cbn [games]. by rewrite lookup_insert_eq.
Qed.

(** C3, as amended.  When the caller already has 10 guesses on record for
    the game and the fee can be charged (it is 0, or the caller is not the
    contract and holds it), the call answers [(err u108)] and commits
    nothing: game, both histories and the ledger are as before.  The body
    itself had moved the fee to the contract before it left; the rollback of
    the failed call takes that back. *)
Theorem eleventh_guess_rejected :
  N.of_nat (length (recorded s game_id (tx_sender env))) = 10 ->
  entry_fee game = 0 \/
    (tx_sender env <> contract_principal env /\
     entry_fee game <= stx_get_balance (tx_sender env) s) ->
  call_public (guess env game_id number) s = (TxErr 108, s) /\
  exists s_mid,
    guess env game_id number s = Return ERR_TOO_MANY_GUESSES s_mid /\
    stx_balances s_mid = pay_fee env game (stx_balances s) /\
    player_guesses s_mid = player_guesses s /\
    game_guesses s_mid = game_guesses s.
Proof using Hgame Hactive Hrange.
  intros Hrec Hpay.
  assert (guess env game_id number s
          = Return ERR_TOO_MANY_GUESSES (charged_state env s game)) as Hrun
    by (apply guess_full_run; [lia|done]).
  split.
  - unfold call_public. by rewrite Hrun.
  - exists (charged_state env s game). by rewrite Hrun.
Qed.

(** C10, as amended.  On an active game with fee 0 and pool 0, a guess equal
    to the secret never answers [(ok true)] and commits nothing.  When the
    caller has fewer than 10 guesses on record and the game fewer than 1000,
    the payout of amount 0 is refused and the call answers that transfer's
    [(err u3)]; otherwise the call has already left with [(err u108)]. *)
Theorem free_empty_game_cannot_be_won :
  entry_fee game = 0 ->
  prize_pool game = 0 ->
  number = secret_number game ->
  call_public (guess env game_id number) s
  = (TxErr (if (N.of_nat (length (recorded s game_id (tx_sender env))) <? 10)
               && (N.of_nat (length (logged s game_id)) <? 1000)
            then 3 else 108), s).
Proof using Hgame Hactive Hrange.
  destruct Hrange as [Hlo Hhi].
  intros Hfee Hpool Hn.
  clar_step. rewrite Hgame. clar_step. rewrite Hfee, Hpool. repeat settle.
  fold (recorded s game_id (tx_sender env)). fold (logged s game_id).
  fold (attempt env number).
  destruct (N.ltb_spec (N.of_nat (length (recorded s game_id (tx_sender env)))) 10)
    as [Hrec|Hrec].
  - rewrite (as_max_len_fits _ _ _ Hrec). clar_step.
    destruct (N.ltb_spec (N.of_nat (length (logged s game_id))) 1000)
      as [Hlog|Hlog].
    + rewrite (as_max_len_fits _ _ _ Hlog). clar_step. reflexivity.
    + rewrite (as_max_len_full _ _ _ Hlog). reflexivity.
  - rewrite (as_max_len_full _ _ _ Hrec). reflexivity.
Qed.

End GuessOnActiveGame.

(** ** Guessing on a finished game *)

(** C5.  On a game whose status is not active every guess answers
    [(err u102)] and commits nothing: the whole state (games, both
    histories, ledger) is as before. *)
Theorem guess_on_finished_game env s game_id number game :
  games s !! game_id = Some game ->
  status game <> "active"%string ->
  call_public (guess env game_id number) s = (TxErr 102, s).
Proof.
  intros Hg Hst. clar_step. rewrite Hg. clar_step.
  repeat settle. reflexivity.
Qed.

Lemma guess_on_finished_game_witness :
  call_public (guess (simnet_env wallet_2 7) 0 42) single_number_won
  = (TxErr 102, single_number_won).
Proof.
  apply (guess_on_finished_game (simnet_env wallet_2 7) single_number_won 0 42
           {| creator := deployer; secret_number := 42; min_number := 42;
              max_number := 42; entry_fee := 1000000; prize_pool := 0;
              guess_count := 1; winner := Some wallet_1; status := "won";
              created_at := 5 |}).
  - vm_compute. reflexivity.
  - discriminate.
Defined.

(** ** Runs of transactions *)

Lemma new_game_in_range env lo hi fee hash :
  lo <= hi -> secret_in_range (new_game env lo hi fee hash).
Proof.
  intros H. unfold secret_in_range. cbn [new_game secret_number min_number max_number].
  assert (N.lxor (buff_to_uint_le (take 16 hash)) (block_height env)
            mod (hi - lo + 1) < hi - lo + 1) as Hm by (apply N.mod_upper_bound; lia).
  revert Hm. generalize (N.lxor (buff_to_uint_le (take 16 hash)) (block_height env)
                           mod (hi - lo + 1)).
  intros m Hm. lia.
Qed.

Lemma exec_call_in_range env c s r s' :
  exec_call env c s = (r, s') -> games_in_range s -> games_in_range s'.
Proof.
  intros H Hinv. destruct c as [lo hi fee|game_id number]; cbn [exec_call] in H.
  - destruct (call_public (create_game env lo hi fee) s) as [r0 s0] eqn:Hc.
    injection H as <- <-. destruct r0 as [v|code|e].
    + apply create_game_ok in Hc as (hash & _ & Hle & _ & ->).
      intros i g. cbn [games]. rewrite lookup_insert.
      case_decide; [|by apply Hinv].
      intros [= <-]. by apply new_game_in_range.
    + by rewrite (call_public_failed _ _ _ _ Hc).
    + by rewrite (call_public_failed _ _ _ _ Hc).
  - destruct (call_public (guess env game_id number) s) as [r0 s0] eqn:Hc.
    injection H as <- <-.
    apply guess_shape in Hc as [_ [Hsame|(game & game' & Hg & Hs & Hsec & Hlo & Hhi)]].
    + intros i g. rewrite Hsame. by apply Hinv.
    + intros i g. rewrite Hs, lookup_insert.
      case_decide; [|by apply Hinv].
      intros [= <-]. unfold secret_in_range. rewrite Hsec, Hlo, Hhi.
      by apply (Hinv game_id).
Qed.

Lemma run_in_range txs : forall s,
  games_in_range s -> games_in_range (snd (run txs s)).
Proof.
  induction txs as [|[env c] rest IH]; intros s Hinv; [done|].
  cbn [run]. destruct (exec_call env c s) as [r s1] eqn:Hstep.
  specialize (IH s1 (exec_call_in_range _ _ _ _ _ Hstep Hinv)).
  by destruct (run rest s1).
Qed.

(** C6.  Every game stored after any run of [create-game] and [guess] calls
    on the freshly deployed contract has its secret between its bounds. *)
Theorem secret_within_range balances txs game_id game :
  games (snd (run txs (init_state balances))) !! game_id = Some game ->
  min_number game <= secret_number game <= max_number game.
Proof.
  intros H. refine (run_in_range txs (init_state balances) _ game_id game H).
  intros i g. cbn [init_state games]. by rewrite lookup_empty.
Qed.

Lemma secret_within_range_witness :
  min_number (sample_game 100 1000 10) <= secret_number (sample_game 100 1000 10)
  <= max_number (sample_game 100 1000 10).
Proof.
  apply (secret_within_range sample_ledger
           ((simnet_env deployer 5, CreateGame 1 100 100) :: ten_misses wallet_1) 0).
  vm_compute. reflexivity.
Defined.

Lemma exec_call_counter env c s r s' :
  exec_call env c s = (r, s') ->
  (created_ids [r] = [total_games s] /\ total_games s' = total_games s + 1) \/
  (created_ids [r] = [] /\ total_games s' = total_games s).
Proof.
  intros H. destruct c as [lo hi fee|game_id number]; cbn [exec_call] in H.
  - destruct (call_public (create_game env lo hi fee) s) as [r0 s0] eqn:Hc.
    injection H as <- <-. destruct r0 as [v|code|e].
    + apply create_game_ok in Hc as (hash & _ & _ & -> & ->). by left.
    + right. by rewrite (call_public_failed _ _ _ _ Hc).
    + right. by rewrite (call_public_failed _ _ _ _ Hc).
  - destruct (call_public (guess env game_id number) s) as [r0 s0] eqn:Hc.
    injection H as <- <-. apply guess_shape in Hc as [Ht _]. by right.
Qed.

Lemma created_ids_cons r rs : created_ids (r :: rs) = created_ids [r] ++ created_ids rs.
Proof. by destruct r as [[]|]. Qed.

Lemma run_ids txs : forall s,
  created_ids (fst (run txs s))
  = (fun i => total_games s + N.of_nat i)
      <$> seq 0 (length (created_ids (fst (run txs s)))) /\
  total_games (snd (run txs s))
  = total_games s + N.of_nat (length (created_ids (fst (run txs s)))).
Proof.
  induction txs as [|[env c] rest IH]; intros s.
  - cbn. split; [done|lia].
  - cbn [run]. destruct (exec_call env c s) as [r s1] eqn:Hstep.
    specialize (IH s1). destruct (run rest s1) as [rs s2]. cbn [fst snd] in *.
    destruct IH as [IHids IHtotal]. rewrite created_ids_cons.
    apply exec_call_counter in Hstep as [[-> Ht]|[-> Ht]].
    + cbn [app length seq fmap list_fmap]. split.
      * f_equal; [f_equal; lia|]. rewrite IHids at 1. rewrite <- fmap_S_seq, <- list_fmap_compose.
        apply list_fmap_ext. intros _ i _. cbn. lia.
      * lia.
    + cbn [app]. split; [by rewrite <- Ht|lia].
Qed.

(** C7.  In any run of calls on the freshly deployed contract the ids
    answered by the successful [create-game] calls are, in order,
    0, 1, 2, ... (so they increase strictly and none is used twice), and
    [get-total-games] then answers their number. *)
Theorem game_ids_sequential balances txs :
  created_ids (fst (run txs (init_state balances)))
  = N.of_nat <$> seq 0 (length (created_ids (fst (run txs (init_state balances))))) /\
  call_read_only get_total_games (snd (run txs (init_state balances)))
  = Some (Ok (N.of_nat (length (created_ids (fst (run txs (init_state balances))))))).
Proof.
  destruct (run_ids txs (init_state balances)) as [Hids Htotal].
  split.
  - rewrite Hids at 1. apply list_fmap_ext. intros _ i _. cbn. lia.
  - clar_step. rewrite Htotal. cbn [init_state total_games]. by rewrite N.add_0_l.
Qed.

(** ** Read-only lookups *)

(** C9, as amended.  On a game id with no stored game, [get-game-winner],
    [get-guess-count] and [get-prize-pool] answer [none] and
    [is-game-active] answers an error that carries [ERR_GAME_NOT_FOUND]; on a
    stored game the three lookups answer the field wrapped in [some], so an
    unknown game is told apart from a game whose field is empty.  None of the
    calls changes the state. *)
Theorem lookups_on_unknown_game {R} s game_id :
  games s !! game_id = None ->
  (get_game_winner game_id s : outcome R _) = Value None s /\
  (get_guess_count game_id s : outcome R _) = Value None s /\
  (get_prize_pool game_id s : outcome R _) = Value None s /\
  (is_game_active game_id s : outcome R _) = Value (Err ERR_GAME_NOT_FOUND) s /\
  forall known game,
    games s !! known = Some game ->
    (get_game_winner known s : outcome R _) = Value (Some (winner game)) s /\
    (get_guess_count known s : outcome R _) = Value (Some (guess_count game)) s /\
    (get_prize_pool known s : outcome R _) = Value (Some (prize_pool game)) s.
Proof.
  intros Hnone. clar_step. rewrite Hnone. repeat (split; [reflexivity|]).
  intros known game Hknown. rewrite Hknown. by repeat split.
Qed.

Lemma lookups_on_unknown_game_witness :
  (get_game_winner 1 paid_game_open : outcome Empty_set _) = Value None paid_game_open /\
  (is_game_active 1 paid_game_open : outcome Empty_set _)
  = Value (Err ERR_GAME_NOT_FOUND) paid_game_open.
Proof.
  destruct (@lookups_on_unknown_game Empty_set paid_game_open 1)
    as (Hwinner & _ & _ & Hactive & _).
  - vm_compute. reflexivity.
  - split; [exact Hwinner|exact Hactive].
Defined.

(** C9 as stated fails: after one creation, game 0 is stored with no winner,
    no guess and an empty pool, game 1 is not stored, and each lookup answers
    [none] on game 1 but a [some] on game 0. *)
Lemma unknown_game_distinguishable :
  games paid_game_open !! 1 = None /\
  games paid_game_open !! 0 = Some (sample_game 100 0 0) /\
  call_read_only (get_game_winner 1) paid_game_open = Some None /\
  call_read_only (get_game_winner 0) paid_game_open = Some (Some None) /\
  call_read_only (get_guess_count 1) paid_game_open = Some None /\
  call_read_only (get_guess_count 0) paid_game_open = Some (Some 0) /\
  call_read_only (get_prize_pool 1) paid_game_open = Some None /\
  call_read_only (get_prize_pool 0) paid_game_open = Some (Some 0) /\
  call_read_only (get_game_winner 1) paid_game_open
  <> call_read_only (get_game_winner 0) paid_game_open.
Proof.
  split; [vm_compute; reflexivity|].
  split; [vm_compute; reflexivity|].
  split; [vm_compute; reflexivity|].
  split; [vm_compute; reflexivity|].
  split; [vm_compute; reflexivity|].
  split; [vm_compute; reflexivity|].
  split; [vm_compute; reflexivity|].
  split; [vm_compute; reflexivity|].
  vm_compute. discriminate.
Qed.

(** ** The amended statements at sample inputs *)

Ltac by_compute :=
  vm_compute;
  repeat match goal with
         | |- _ /\ _ => split
         end;
  lazymatch goal with
  | |- _ = _ => reflexivity
  | |- _ -> False => let H := fresh in intro H; discriminate H
  end.

Lemma guess_win_witness :
  exists s',
    call_public (guess (simnet_env wallet_2 7) 0 59) (paid_game_full wallet_1)
    = (TxOk true, s') /\
    stx_get_balance wallet_2 s' = 2000 /\
    (prize_pool <$> games s' !! 0) = Some 0.
Proof.
  assert (games (paid_game_full wallet_1) !! 0 = Some (sample_game 100 1000 10))
    as Hgame by by_compute.
  assert (min_number (sample_game 100 1000 10) <= 59
          <= max_number (sample_game 100 1000 10)) as Hrange by by_compute.
  assert (tx_sender (simnet_env wallet_2 7) <> contract_principal (simnet_env wallet_2 7))
    as Hcaller by by_compute.
  assert (entry_fee (sample_game 100 1000 10)
          <= stx_get_balance (tx_sender (simnet_env wallet_2 7)) (paid_game_full wallet_1))
    as Hfee by by_compute.
  assert (N.of_nat (length (recorded (paid_game_full wallet_1) 0
                              (tx_sender (simnet_env wallet_2 7)))) < 10)
    as Hrec by by_compute.
  assert (N.of_nat (length (logged (paid_game_full wallet_1) 0)) < 1000)
    as Hlog by by_compute.
  assert (0 < prize_pool (sample_game 100 1000 10) + entry_fee (sample_game 100 1000 10)
          <= u128_max) as Hpaid by by_compute.
  assert (prize_pool (sample_game 100 1000 10)
          <= stx_get_balance (contract_principal (simnet_env wallet_2 7))
               (paid_game_full wallet_1))
    as Hpool by by_compute.
  assert (guess_count (sample_game 100 1000 10) + 1 <= u128_max) as Hcount
    by by_compute.
  assert (stx_get_balance wallet_2 (paid_game_full wallet_1) = 1000)
    as Hbefore by by_compute.
  destruct (guess_win (simnet_env wallet_2 7) (paid_game_full wallet_1) 0 59
              (sample_game 100 1000 10) Hgame eq_refl Hrange eq_refl Hcaller
              Hfee Hrec Hlog Hpaid Hpool Hcount)
    as (s' & Hcall & _ & Hnet & _ & Hstored).
  exists s'. split; [exact Hcall|]. split.
  - cbn [simnet_env tx_sender] in Hnet. rewrite Hnet, Hbefore. reflexivity.
  - rewrite Hstored. reflexivity.
Defined.

Lemma guess_miss_witness :
  exists s',
    call_public (guess (simnet_env wallet_1 6) 0 60) paid_game_open = (TxOk false, s') /\
    (prize_pool <$> games s' !! 0) = Some 100 /\
    (guess_count <$> games s' !! 0) = Some 1.
Proof.
  assert (games paid_game_open !! 0 = Some (sample_game 100 0 0)) as Hgame
    by by_compute.
  assert (min_number (sample_game 100 0 0) <= 60 <= max_number (sample_game 100 0 0))
    as Hrange by by_compute.
  assert (60 <> secret_number (sample_game 100 0 0)) as Hmiss by by_compute.
  assert (entry_fee (sample_game 100 0 0) = 0 \/
          (tx_sender (simnet_env wallet_1 6) <> contract_principal (simnet_env wallet_1 6) /\
           entry_fee (sample_game 100 0 0)
           <= stx_get_balance (tx_sender (simnet_env wallet_1 6)) paid_game_open))
    as Hpay by (right; split; by_compute).
  assert (N.of_nat (length (recorded paid_game_open 0
                              (tx_sender (simnet_env wallet_1 6)))) < 10)
    as Hrec by by_compute.
  assert (N.of_nat (length (logged paid_game_open 0)) < 1000) as Hlog by by_compute.
  assert (prize_pool (sample_game 100 0 0) + entry_fee (sample_game 100 0 0) <= u128_max)
    as Hpool by by_compute.
  assert (guess_count (sample_game 100 0 0) + 1 <= u128_max) as Hcount by by_compute.
  destruct (guess_miss (simnet_env wallet_1 6) paid_game_open 0 60
              (sample_game 100 0 0) Hgame eq_refl Hrange Hmiss Hpay Hrec Hlog
              Hpool Hcount)
    as (s' & Hcall & Hstored).
  exists s'. split; [exact Hcall|]. rewrite Hstored. by split.
Defined.

Lemma eleventh_guess_rejected_witness :
  call_public (guess (simnet_env wallet_1 7) 0 42) (paid_game_full wallet_1)
  = (TxErr 108, paid_game_full wallet_1).
Proof.
  assert (games (paid_game_full wallet_1) !! 0 = Some (sample_game 100 1000 10))
    as Hgame by by_compute.
  assert (min_number (sample_game 100 1000 10) <= 42
          <= max_number (sample_game 100 1000 10)) as Hrange by by_compute.
  assert (N.of_nat (length (recorded (paid_game_full wallet_1) 0
                              (tx_sender (simnet_env wallet_1 7)))) = 10)
    as Hrec by by_compute.
  assert (entry_fee (sample_game 100 1000 10) = 0 \/
          (tx_sender (simnet_env wallet_1 7) <> contract_principal (simnet_env wallet_1 7) /\
           entry_fee (sample_game 100 1000 10)
           <= stx_get_balance (tx_sender (simnet_env wallet_1 7))
                (paid_game_full wallet_1)))
    as Hpay by (right; split; by_compute).
  exact (proj1 (eleventh_guess_rejected (simnet_env wallet_1 7)
                  (paid_game_full wallet_1) 0 42 (sample_game 100 1000 10)
                  Hgame eq_refl Hrange Hrec Hpay)).
Defined.

Lemma free_empty_game_cannot_be_won_witness :
  call_public (guess (simnet_env wallet_1 6) 0 59) free_game_open
  = (TxErr 3, free_game_open).
Proof.
  assert (games free_game_open !! 0 = Some (sample_game 0 0 0)) as Hgame
    by by_compute.
  assert (min_number (sample_game 0 0 0) <= 59 <= max_number (sample_game 0 0 0))
    as Hrange by by_compute.
  exact (free_empty_game_cannot_be_won (simnet_env wallet_1 6) free_game_open
           0 59 (sample_game 0 0 0) Hgame eq_refl Hrange eq_refl eq_refl eq_refl).
Defined.

(** ** Where the statements as given fail *)

(** C1 as stated fails: game 0 is active with secret 59 in 1..100 and
    [wallet_1], who holds the fee, already has ten guesses on record; its
    guess of 59 answers [(err u108)], not [(ok true)]. *)
Lemma matching_guess_rejected_at_capacity :
  games (paid_game_full wallet_1) !! 0 = Some (sample_game 100 1000 10) /\
  status (sample_game 100 1000 10) = "active"%string /\
  secret_number (sample_game 100 1000 10) = 59 /\
  min_number (sample_game 100 1000 10) <= 59 <= max_number (sample_game 100 1000 10) /\
  call_public (guess (simnet_env wallet_1 7) 0 59) (paid_game_full wallet_1)
  = (TxErr 108, paid_game_full wallet_1) /\
  fst (call_public (guess (simnet_env wallet_1 7) 0 59) (paid_game_full wallet_1))
  <> TxOk true.
Proof.
  by_compute.
Qed.

(** C4 as stated fails: game 0 is active with secret 59 in 1..100 and fee
    100; the guess 60 of a caller who holds no STX answers the transfer's
    [(err u1)], not [(ok false)], and the pool stays 0. *)
Lemma missing_guess_rejected_without_funds :
  games paid_game_open !! 0 = Some (sample_game 100 0 0) /\
  status (sample_game 100 0 0) = "active"%string /\
  min_number (sample_game 100 0 0) <= 60 <= max_number (sample_game 100 0 0) /\
  60 <> secret_number (sample_game 100 0 0) /\
  call_public (guess (simnet_env "wallet_3" 6) 0 60) paid_game_open
  = (TxErr 1, paid_game_open) /\
  fst (call_public (guess (simnet_env "wallet_3" 6) 0 60) paid_game_open)
  <> TxOk false.
Proof.
  by_compute.
Qed.

(** C3 as stated fails: [wallet_2] has ten guesses on record on the active
    game 0 and has spent all its STX on them; its next guess, in range,
    answers the transfer's [(err u1)], not [(err u108)]. *)
Lemma eleventh_guess_without_funds :
  games (paid_game_full wallet_2) !! 0 = Some (sample_game 100 1000 10) /\
  length (recorded (paid_game_full wallet_2) 0 wallet_2) = 10%nat /\
  stx_get_balance wallet_2 (paid_game_full wallet_2) = 0 /\
  status (sample_game 100 1000 10) = "active"%string /\
  min_number (sample_game 100 1000 10) <= 42 <= max_number (sample_game 100 1000 10) /\
  call_public (guess (simnet_env wallet_2 7) 0 42) (paid_game_full wallet_2)
  = (TxErr 1, paid_game_full wallet_2) /\
  fst (call_public (guess (simnet_env wallet_2 7) 0 42) (paid_game_full wallet_2))
  <> TxErr 108.
Proof.
  by_compute.
Qed.

(** C10 as stated fails in one point: on the free game 0 with empty pool,
    the guess 59 of [wallet_1], who has ten guesses on record, equals the
    secret and answers [(err u108)]; the payout is never attempted, so the
    answer is not a transfer error. *)
Lemma free_game_guess_rejected_at_capacity :
  games free_game_full !! 0 = Some (sample_game 0 0 10) /\
  status (sample_game 0 0 10) = "active"%string /\
  secret_number (sample_game 0 0 10) = 59 /\
  length (recorded free_game_full 0 wallet_1) = 10%nat /\
  call_public (guess (simnet_env wallet_1 7) 0 59) free_game_full
  = (TxErr 108, free_game_full) /\
  fst (call_public (guess (simnet_env wallet_1 7) 0 59) free_game_full) <> TxErr 3.
Proof.
  by_compute.
Qed.

(** * Further properties of the contract *)

(** ** What a call that answers [(ok b)] has done *)

Ltac props_of_tests :=
  repeat match goal with
         | H : (_ <=? _) = true |- _ => apply N.leb_le in H
         | H : (_ <=? _) = false |- _ => apply N.leb_gt in H
         | H : (_ <? _) = true |- _ => apply N.ltb_lt in H
         | H : (_ <? _) = false |- _ => apply N.ltb_ge in H
         | H : (_ =? _) = true |- _ => apply N.eqb_eq in H
         | H : (_ =? _) = false |- _ => apply N.eqb_neq in H
         | H : String.eqb _ _ = true |- _ => apply String.eqb_eq in H
         | H : String.eqb _ _ = false |- _ => apply String.eqb_neq in H
         | H : bool_decide _ = true |- _ => apply bool_decide_eq_true_1 in H
         | H : bool_decide _ = false |- _ => apply bool_decide_eq_false_1 in H
         | H : as_max_len (append _ _) _ = Some _ |- _ =>
             apply as_max_len_Some in H as [-> H];
             unfold append in H; rewrite length_app in H; cbn [length] in H
         end.

Ltac split_all := repeat match goal with |- _ /\ _ => split end.

Lemma guess_ok env game_id number s b s' :
  call_public (guess env game_id number) s = (TxOk b, s') ->
  exists game,
    games s !! game_id = Some game /\
    status game = "active"%string /\
    min_number game <= number <= max_number game /\
    (entry_fee game = 0 \/
     (tx_sender env <> contract_principal env /\
      entry_fee game <= stx_get_balance (tx_sender env) s)) /\
    N.of_nat (length (recorded s game_id (tx_sender env))) < 10 /\
    N.of_nat (length (logged s game_id)) < 1000 /\
    prize_pool game + entry_fee game <= u128_max /\
    guess_count game + 1 <= u128_max /\
    ((b = true /\ number = secret_number game /\
      tx_sender env <> contract_principal env /\
      0 < prize_pool game + entry_fee game /\
      prize_pool game + entry_fee game
      <= default 0 (pay_fee env game (stx_balances s) !! contract_principal env) /\
      s' = won_state env s game_id number game) \/
     (b = false /\ number <> secret_number game /\
      s' = missed_state env s game_id number game)).
Proof.
  intros H. break_in H; injection H as <- <-; props_of_tests.
  all: unfold stx_get_balance in *; cbn [tx_sender as_contract stx_balances] in *.
  all: eexists; split; [reflexivity|].
  all: unfold recorded, logged, won_state, missed_state, pay_fee, attempt, append.
  all: destruct (N.ltb_spec 0 (entry_fee g)); try lia.
  all: split_all; try done; try lia.
  all: try (by left; lia); try (by right; split; [congruence|lia]).
  all: first [ left; split_all; first [done | lia | congruence]
             | right; split_all; first [done | lia | congruence] ].
Qed.

(** A call of [guess] either commits nothing or answers [(ok b)]. *)
Lemma guess_cases env game_id number s r s' :
  call_public (guess env game_id number) s = (r, s') ->
  s' = s \/ exists b, r = TxOk b.
Proof.
  intros H. destruct r as [b|code|e].
  - right. by exists b.
  - left. by apply (call_public_failed _ _ _ _ H).
  - left. by apply (call_public_failed _ _ _ _ H).
Qed.

(** ** Rejected guesses *)

(** X1.  A guess on a game id that is not stored answers [(err u101)] and
    commits nothing. *)
Theorem guess_unknown_game env s game_id number :
  games s !! game_id = None ->
  call_public (guess env game_id number) s = (TxErr 101, s).
Proof.
  intros Hnone. clar_step. rewrite Hnone. reflexivity.
Qed.

Lemma guess_unknown_game_witness :
  call_public (guess (simnet_env wallet_1 6) 9999 50) paid_game_open
  = (TxErr 101, paid_game_open).
Proof.
  apply (guess_unknown_game (simnet_env wallet_1 6) paid_game_open 9999 50).
  vm_compute. reflexivity.
Defined.

(** X2.  On an active game a guess below [min-number] or above [max-number]
    answers [(err u103)] and commits nothing, whatever the caller holds. *)
Theorem guess_out_of_range env s game_id number game :
  games s !! game_id = Some game ->
  status game = "active"%string ->
  number < min_number game \/ max_number game < number ->
  call_public (guess env game_id number) s = (TxErr 103, s).
Proof.
  intros Hgame Hactive Hout. clar_step. rewrite Hgame. clar_step.
  settle. destruct Hout as [Hlow|Hhigh].
  - repeat settle. reflexivity.
  - destruct (N.leb_spec (min_number game) number); clar_step;
      repeat settle; reflexivity.
Qed.

Lemma guess_out_of_range_witness :
  call_public (guess (simnet_env wallet_1 6) 0 150) paid_game_open
  = (TxErr 103, paid_game_open).
Proof.
  assert (games paid_game_open !! 0 = Some (sample_game 100 0 0)) as Hgame
    by by_compute.
  assert (150 < min_number (sample_game 100 0 0)
          \/ max_number (sample_game 100 0 0) < 150) as Hout
    by (right; by_compute).
  exact (guess_out_of_range (simnet_env wallet_1 6) paid_game_open 0 150
           (sample_game 100 0 0) Hgame eq_refl Hout).
Defined.

(** X3.  The only error codes [guess] answers are 101, 102, 103, 108 and the
    codes 1, 2, 3 of a refused transfer; it never answers the reserved codes
    100, 104, 106, 107, and the only runtime error it can stop on is an
    overflow. *)
Theorem guess_error_codes env s game_id number :
  match fst (call_public (guess env game_id number) s) with
  | TxOk _ => True
  | TxErr code => In code [101; 102; 103; 108; 1; 2; 3]
  | TxAbort e => e = ArithmeticOverflow
  end.
Proof.
  destruct (call_public (guess env game_id number) s) as [r s'] eqn:H.
  break_in H; injection H as <- <-; cbn [fst In]; props_of_tests;
    repeat match goal with
           | H : _ = Err _ |- _ => injection H as <-
           end;
    first [ exact I | reflexivity | tauto | congruence ].
Qed.

(** ** Creation, continued *)

Lemma slice_fits {A} (l l' : list A) (n : N) :
  slice l 0 n = Some l' -> as_max_len l' n = Some l'.
Proof.
  intros H. apply slice_take in H as ->. unfold as_max_len.
  destruct (N.leb_spec (N.of_nat (length (take (N.to_nat n) l))) n); [done|].
  rewrite length_take in *. lia.
Qed.

Lemma slice_prefix {A} (l : list A) (n : N) :
  n <= N.of_nat (length l) -> slice l 0 n = Some (take (N.to_nat n) l).
Proof.
  intros H. unfold slice.
  destruct (N.ltb_spec n 0); [lia|].
  destruct (N.ltb_spec (N.of_nat (length l)) n); [lia|].
  cbn [orb]. by rewrite N.sub_0_r.
Qed.

(** X4.  Whatever its arguments and the state, [create-game] answers
    [(ok total-games)], [(err u109)] (no header hash), [(err u111)] (hash
    shorter than 16 bytes), or stops on an underflow or an overflow.  It
    never answers [ERR_INVALID_PARAMS] [(err u105)] or [(err u112)] and never
    divides by zero: the [asserts!] and the second [unwrap!] cannot fail once
    the bindings before them have been evaluated. *)
Theorem create_game_outcomes env s lo hi fee :
  In (fst (call_public (create_game env lo hi fee) s))
     [TxOk (total_games s); TxErr 109; TxErr 111;
      TxAbort ArithmeticUnderflow; TxAbort ArithmeticOverflow].
Proof.
  destruct (call_public (create_game env lo hi fee) s) as [r s'] eqn:H.
  break_in H; injection H as <- <-; cbn [fst In];
    repeat match goal with
           | H : _ = Err _ |- _ => injection H as <-
           end;
    try tauto.
  - apply N.eqb_eq in Heqb2. apply N.leb_le in Heqb0. lia.
  - apply slice_fits in Heqo0. congruence.
Qed.

(** X5.  With a block before the current one whose header hash has at least
    16 bytes, bounds [min <= max] that are [uint]s and do not span the whole
    [uint] range, and a counter that can grow, [create-game] answers
    [(ok total-games)], stores the new active game with an empty pool, no
    guess and no winner under that id, adds one to the counter, and leaves
    every other game, both histories, the ledger and the events as they
    were. *)
Theorem create_game_succeeds env s lo hi fee hash :
  0 < block_height env ->
  header_hash env (block_height env - 1) = Some hash ->
  16 <= N.of_nat (length hash) ->
  lo <= hi <= u128_max ->
  hi - lo < u128_max ->
  total_games s < u128_max ->
  call_public (create_game env lo hi fee) s
  = (TxOk (total_games s),
     {| total_games := total_games s + 1;
        games := <[total_games s := new_game env lo hi fee hash]> (games s);
        player_guesses := player_guesses s;
        game_guesses := game_guesses s;
        stx_balances := stx_balances s;
        events := events s |}).
Proof.
  intros Hheight Hhash Hlen [Hle Hhi] Hspan Htotal.
  assert (N.lxor (buff_to_uint_le (take 16 hash)) (block_height env)
            mod (hi - lo + 1) < hi - lo + 1) as Hm
    by (apply N.mod_upper_bound; lia).
  clar_step. unfold get_block_info_header_hash. repeat settle.
  rewrite Hhash. clar_step. repeat settle.
  rewrite (slice_prefix hash 16 Hlen). clar_step.
  rewrite (slice_fits hash _ 16 (slice_prefix hash 16 Hlen)). clar_step.
  repeat settle.
  change (N.to_nat 16) with 16%nat in *. unfold new_game.
  revert Hm.
  generalize (N.lxor (buff_to_uint_le (take 16 hash)) (block_height env)
                mod (hi - lo + 1)).
  intros m Hm. repeat settle. reflexivity.
Qed.

Lemma create_game_succeeds_witness :
  call_public (create_game (simnet_env deployer 5) 1 100 100) (init_state sample_ledger)
  = (TxOk 0,
     {| total_games := 0 + 1;
        games := <[0 := new_game (simnet_env deployer 5) 1 100 100 sample_hash]> ∅;
        player_guesses := ∅; game_guesses := ∅;
        stx_balances := sample_ledger; events := [] |}).
Proof.
  assert (0 < block_height (simnet_env deployer 5)) as Hheight by by_compute.
  assert (16 <= N.of_nat (length sample_hash)) as Hlen by by_compute.
  assert (1 <= 100 <= u128_max) as Hbounds by by_compute.
  assert (100 - 1 < u128_max) as Hspan by by_compute.
  assert (total_games (init_state sample_ledger) < u128_max) as Htotal by by_compute.
  exact (create_game_succeeds (simnet_env deployer 5) (init_state sample_ledger)
           1 100 100 sample_hash Hheight eq_refl Hlen Hbounds Hspan Htotal).
Defined.

(** X6.  Bounds that span the whole [uint] range cannot be used: with
    [max - min = 2^128 - 1] the binding of [range] overflows and the call
    stops on a runtime error, committing nothing. *)
Theorem create_game_whole_range_overflows env s lo hi fee hash :
  0 < block_height env ->
  header_hash env (block_height env - 1) = Some hash ->
  lo <= hi ->
  u128_max <= hi - lo ->
  call_public (create_game env lo hi fee) s = (TxAbort ArithmeticOverflow, s).
Proof.
  intros Hheight Hhash Hle Hspan.
  clar_step. unfold get_block_info_header_hash. repeat settle.
  rewrite Hhash. clar_step. repeat settle. reflexivity.
Qed.

Lemma create_game_whole_range_overflows_witness :
  call_public (create_game (simnet_env deployer 5) 0 u128_max 100)
    (init_state sample_ledger)
  = (TxAbort ArithmeticOverflow, init_state sample_ledger).
Proof.
  assert (0 < block_height (simnet_env deployer 5)) as Hheight by by_compute.
  assert (0 <= u128_max) as Hle by by_compute.
  assert (u128_max <= u128_max - 0) as Hspan by by_compute.
  exact (create_game_whole_range_overflows (simnet_env deployer 5)
           (init_state sample_ledger) 0 u128_max 100 sample_hash
           Hheight eq_refl Hle Hspan).
Defined.

(** X7.  A successful [create-game] with [min = max] stores that number as
    the secret, so every guess within the bounds of that game is the
    secret. *)
Theorem create_game_single_number env s n fee game_id s' :
  call_public (create_game env n n fee) s = (TxOk game_id, s') ->
  exists game,
    games s' !! game_id = Some game /\
    secret_number game = n /\
    forall number,
      min_number game <= number <= max_number game -> number = secret_number game.
Proof.
  intros H. apply create_game_ok in H as (hash & _ & _ & -> & ->).
  exists (new_game env n n fee hash). cbn [games].
  split; [by rewrite lookup_insert_eq|].
  cbn [new_game secret_number min_number max_number].
  replace (n - n + 1) with 1 by lia. rewrite N.mod_1_r.
  split; [lia|]. intros number. lia.
Qed.

Lemma create_game_single_number_witness :
  exists game,
    games (snd (call_public (create_game (simnet_env deployer 5) 42 42 1000000)
                  (init_state sample_ledger))) !! 0 = Some game /\
    secret_number game = 42 /\
    forall number,
      min_number game <= number <= max_number game -> number = secret_number game.
Proof.
  apply (create_game_single_number (simnet_env deployer 5)
           (init_state sample_ledger) 42 1000000 0).
  vm_compute. reflexivity.
Defined.

(** ** What the calls keep true *)

Lemma guess_ok_shape env game_id number s b s' :
  call_public (guess env game_id number) s = (TxOk b, s') ->
  exists game game',
    games s !! game_id = Some game /\
    status game = "active"%string /\
    guess_in_bounds game number /\
    N.of_nat (length (recorded s game_id (tx_sender env))) < 10 /\
    N.of_nat (length (logged s game_id)) < 1000 /\
    total_games s' = total_games s /\
    games s' = <[game_id := game']> (games s) /\
    player_guesses s'
    = <[(game_id, tx_sender env) := recorded s game_id (tx_sender env) ++ [number]]>
        (player_guesses s) /\
    game_guesses s'
    = <[game_id := logged s game_id ++ [attempt env number]]> (game_guesses s) /\
    evolves game game' /\
    guess_count game' = guess_count game + 1 /\
    ((b = true /\ number = secret_number game /\
      game' = merge_won game (guess_count game + 1) (tx_sender env) /\
      events s' = events s ++ [won_event env game_id game]) \/
     (b = false /\ number <> secret_number game /\
      game' = merge_continue game (prize_pool game + entry_fee game)
                (guess_count game + 1) /\
      events s' = events s)).
Proof.
  intros H.
  apply guess_ok in H
    as (game & Hg & Hact & Hin & _ & Hrec & Hlog & _ & _ & Hcase).
  destruct Hcase as [(-> & Hn & _ & _ & _ & ->)|(-> & Hn & ->)].
  - exists game, (merge_won game (guess_count game + 1) (tx_sender env)).
    unfold won_state, evolves. cbn.
    split_all; try done; try lia; try (intros; congruence).
    left. by split_all.
  - exists game, (merge_continue game (prize_pool game + entry_fee game)
                    (guess_count game + 1)).
    unfold missed_state, evolves. cbn.
    split_all; try done; try lia; try (intros; congruence).
    right. by split_all.
Qed.

Lemma recorded_insert s s' key l game_id player :
  player_guesses s' = <[key := l]> (player_guesses s) ->
  recorded s' game_id player
  = if decide (key = (game_id, player)) then l else recorded s game_id player.
Proof. intros H. unfold recorded. rewrite H, lookup_insert. by case_decide. Qed.

Lemma logged_insert s s' key l game_id :
  game_guesses s' = <[key := l]> (game_guesses s) ->
  logged s' game_id = if decide (key = game_id) then l else logged s game_id.
Proof. intros H. unfold logged. rewrite H, lookup_insert. by case_decide. Qed.

Lemma consistent_active g :
  game_consistent g -> status g = "active"%string -> winner g = None.
Proof. intros [[_ H]|[H _]] Hs; [done|congruence]. Qed.

Lemma well_formed_guess env game_id number s r s' :
  call_public (guess env game_id number) s = (r, s') ->
  well_formed s -> well_formed s'.
Proof.
  intros H Hwf. destruct (guess_cases _ _ _ _ _ _ H) as [->|[b ->]]; [done|].
  apply guess_ok_shape in H
    as (game & game' & Hg & Hact & Hin & Hrec & Hlog & Htot & Hgames & Hpg & Hgg
        & Hev & Hcnt & Hcase).
  destruct Hwf as [Hdense Hgame Hlogged Hrecorded [Hnodup Hevents]].
  destruct Hev as (_ & Hsec & Hmin & Hmax & _).
  assert (forall i, games s' !! i
                    = if decide (game_id = i) then Some game' else games s !! i)
    as Hlook by (intros i; rewrite Hgames; apply lookup_insert).
  assert (forall e, e ∈ events s -> ev_game_id e <> game_id) as Hfresh.
  { intros e He Heq. destruct (Hevents e He) as (g & Hge & Hwon & _).
    rewrite Heq in Hge. congruence. }
  destruct (Hgame game_id game Hg) as (Hcons & Hcount & _).
  constructor.
  - intros i. rewrite Hlook, Htot. case_decide; [|apply Hdense].
    subst i. rewrite <- Hdense, Hg. split; eauto.
  - intros i g Hi. rewrite Hlook in Hi. rewrite (logged_insert _ _ _ _ i Hgg).
    case_decide.
    + subst i. injection Hi as <-. split; [|split].
      * destruct Hcase as [(_ & _ & -> & _)|(_ & _ & -> & _)].
        -- right. cbn. eauto.
        -- left. cbn. split; [done|]. by apply consistent_active.
      * rewrite Hcnt, Hcount, length_app. cbn [length]. lia.
      * intros w Hw. rewrite (recorded_insert _ _ _ _ game_id w Hpg).
        destruct Hcase as [(_ & Hn & -> & _)|(_ & _ & -> & _)].
        -- cbn in Hw. injection Hw as <-. rewrite decide_True by done.
           rewrite last_snoc. cbn. by rewrite Hn.
        -- cbn in Hw. rewrite (consistent_active _ Hcons Hact) in Hw. done.
    + destruct (Hgame i g Hi) as (Hc & Hn & Hw). split; [done|]. split; [done|].
      intros w Hwin. rewrite (recorded_insert _ _ _ _ i w Hpg).
      rewrite decide_False by congruence. by apply Hw.
  - intros i. rewrite (logged_insert _ _ _ _ i Hgg), Hlook. case_decide.
    + split; [|done]. rewrite length_app. cbn [length]. lia.
    + apply Hlogged.
  - intros i p. rewrite (recorded_insert _ _ _ _ i p Hpg), Hlook.
    destruct (decide ((game_id, tx_sender env) = (i, p))) as [Heq|Hne].
    + injection Heq as <- <-. rewrite decide_True by done.
      split; [rewrite length_app; cbn [length]; lia|]. split; [done|].
      intros g [= <-]. apply Forall_app. split.
      * destruct (Hrecorded game_id (tx_sender env)) as (_ & _ & Hall).
        eapply Forall_impl; [by apply Hall|].
        intros n. unfold guess_in_bounds. by rewrite Hmin, Hmax.
      * apply Forall_singleton. unfold guess_in_bounds in *. by rewrite Hmin, Hmax.
    + destruct (Hrecorded i p) as (Hlen & Hnone & Hall). case_decide.
      * subst i. split; [done|]. split; [done|]. intros g [= <-].
        eapply Forall_impl; [by apply Hall|].
        intros n. unfold guess_in_bounds. by rewrite Hmin, Hmax.
      * done.
  - destruct Hcase as [(_ & _ & -> & ->)|(_ & _ & -> & ->)].
    + split.
      * rewrite fmap_app. apply NoDup_app. split; [done|]. split.
        -- intros i Hi Hin'. apply list_elem_of_fmap in Hi as (e & -> & He).
           cbn in Hin'. apply list_elem_of_singleton in Hin'. by apply (Hfresh e).
        -- cbn. apply NoDup_singleton.
      * intros e He. apply elem_of_app in He as [He|He].
        -- destruct (Hevents e He) as (g & Hge & Hw). exists g.
           rewrite Hlook, decide_False; [done|]. intros Heq. by apply (Hfresh e).
        -- apply list_elem_of_singleton in He as ->. cbn.
           eexists. rewrite Hlook, decide_True by done. split; [done|]. by cbn.
    + split; [done|]. intros e He.
      destruct (Hevents e He) as (g & Hge & Hw). exists g.
      rewrite Hlook, decide_False; [done|]. intros Heq. by apply (Hfresh e).
Qed.

Lemma well_formed_create env lo hi fee s r s' :
  call_public (create_game env lo hi fee) s = (r, s') ->
  well_formed s -> well_formed s'.
Proof.
  intros H Hwf. destruct r as [id|code|e];
    [|by rewrite (call_public_failed _ _ _ _ H)..].
  apply create_game_ok in H as (hash & _ & Hle & -> & ->).
  destruct Hwf as [Hdense Hgame Hlogged Hrecorded [Hnodup Hevents]].
  assert (games s !! total_games s = None) as Hnew.
  { apply eq_None_not_Some. rewrite Hdense. lia. }
  constructor; cbn [games total_games events].
  - intros i. rewrite lookup_insert. case_decide.
    + subst i. split; [lia|eauto].
    + rewrite Hdense. lia.
  - intros i g. rewrite lookup_insert. case_decide; [|apply Hgame].
    subst i. intros [= <-]. split; [by left|]. split; [|done].
    destruct (Hlogged (total_games s)) as [_ Hempty].
    change (logged _ (total_games s)) with (logged s (total_games s)).
    by rewrite Hempty.
  - intros i. rewrite lookup_insert. case_decide; [|apply Hlogged].
    split; [apply Hlogged|done].
  - intros i p. rewrite lookup_insert.
    destruct (Hrecorded i p) as (Hlen & Hnone & Hall).
    change (recorded _ i p) with (recorded s i p).
    case_decide; [|done].
    subst i. rewrite (Hnone Hnew). split; [done|]. split; [done|].
    intros g _. constructor.
  - split; [done|]. intros e He. destruct (Hevents e He) as (g & Hg & Hw).
    exists g. rewrite lookup_insert_ne; [done|]. congruence.
Qed.

Lemma well_formed_init balances : well_formed (init_state balances).
Proof.
  constructor; cbn [init_state games total_games events].
  - intros i. rewrite lookup_empty. split; [by intros [? ?]|lia].
  - intros i g. by rewrite lookup_empty.
  - intros i. unfold logged. cbn. by rewrite lookup_empty.
  - intros i p. unfold recorded. cbn. rewrite lookup_empty. cbn.
    split; [lia|]. split; [done|]. intros g. by rewrite lookup_empty.
  - split; [constructor|]. intros e He. by apply elem_of_nil in He.
Qed.

Lemma well_formed_run txs : forall s, well_formed s -> well_formed (snd (run txs s)).
Proof.
  induction txs as [|[env c] rest IH]; intros s Hwf; [done|].
  cbn [run]. destruct (exec_call env c s) as [r s1] eqn:Hstep.
  assert (well_formed s1) as Hwf1.
  { destruct c as [lo hi fee|game_id number]; cbn [exec_call] in Hstep.
    - destruct (call_public (create_game env lo hi fee) s) as [r0 s0] eqn:Hc.
      injection Hstep as <- <-. by apply (well_formed_create _ _ _ _ _ _ _ Hc).
    - destruct (call_public (guess env game_id number) s) as [r0 s0] eqn:Hc.
      injection Hstep as <- <-. by apply (well_formed_guess _ _ _ _ _ _ Hc). }
  specialize (IH s1 Hwf1). by destruct (run rest s1).
Qed.

(** ** Every state the deployed contract can reach *)

(** X8.  After any run of calls the stored games are exactly those with an
    id below [total-games]: ids are dense and no game is ever removed. *)
Theorem stored_ids_below_counter balances txs game_id :
  is_Some (games (snd (run txs (init_state balances))) !! game_id)
  <-> game_id < total_games (snd (run txs (init_state balances))).
Proof.
  apply (wf_dense _ (well_formed_run txs _ (well_formed_init balances))).
Qed.

(** X9.  After any run of calls every stored game is either active with no
    winner, or won with a winner and an empty pool. *)
Theorem status_winner_pool_agree balances txs game_id g :
  games (snd (run txs (init_state balances))) !! game_id = Some g ->
  (status g = "active"%string /\ winner g = None) \/
  (status g = "won"%string /\ (exists w, winner g = Some w) /\ prize_pool g = 0).
Proof.
  intros H.
  by destruct (wf_game _ (well_formed_run txs _ (well_formed_init balances)) _ _ H).
Qed.

Lemma status_winner_pool_agree_witness :
  (status (merge_won (new_game (simnet_env deployer 5) 42 42 1000000 sample_hash)
             1 wallet_1) = "active"%string /\
   winner (merge_won (new_game (simnet_env deployer 5) 42 42 1000000 sample_hash)
             1 wallet_1) = None) \/
  (status (merge_won (new_game (simnet_env deployer 5) 42 42 1000000 sample_hash)
             1 wallet_1) = "won"%string /\
   (exists w, winner (merge_won (new_game (simnet_env deployer 5) 42 42 1000000
                                   sample_hash) 1 wallet_1) = Some w) /\
   prize_pool (merge_won (new_game (simnet_env deployer 5) 42 42 1000000 sample_hash)
                 1 wallet_1) = 0).
Proof.
  apply (status_winner_pool_agree sample_ledger
           [(simnet_env deployer 5, CreateGame 42 42 1000000);
            (simnet_env wallet_1 6, Guess 0 42)] 0).
  vm_compute. reflexivity.
Defined.

(** X10.  After any run of calls the guess count of a stored game is the
    length of its guess log, and so at most 1000. *)
Theorem guess_count_is_log_length balances txs game_id g :
  games (snd (run txs (init_state balances))) !! game_id = Some g ->
  guess_count g
  = N.of_nat (length (logged (snd (run txs (init_state balances))) game_id)) /\
  guess_count g <= 1000.
Proof.
  intros H.
  pose proof (well_formed_run txs _ (well_formed_init balances)) as Hwf.
  destruct (wf_game _ Hwf _ _ H) as (_ & Hcount & _).
  destruct (wf_logged _ Hwf game_id) as [Hlen _].
  split; [done|]. by rewrite Hcount.
Qed.

Lemma guess_count_is_log_length_witness :
  guess_count (sample_game 100 1000 10)
  = N.of_nat (length (logged (paid_game_full wallet_1) 0)) /\
  guess_count (sample_game 100 1000 10) <= 1000.
Proof.
  apply (guess_count_is_log_length sample_ledger
           ((simnet_env deployer 5, CreateGame 1 100 100) :: ten_misses wallet_1) 0).
  vm_compute. reflexivity.
Defined.

(** X11.  After any run of calls [get-player-guesses] answers, for every game
    id and player, a list of at most 10 numbers, each within the bounds of
    that game. *)
Theorem player_history_bounded balances txs game_id player :
  exists l,
    call_read_only (get_player_guesses game_id player)
      (snd (run txs (init_state balances))) = Some l /\
    N.of_nat (length l) <= 10 /\
    forall g,
      games (snd (run txs (init_state balances))) !! game_id = Some g ->
      Forall (fun n => min_number g <= n <= max_number g) l.
Proof.
  pose proof (well_formed_run txs _ (well_formed_init balances)) as Hwf.
  destruct (wf_recorded _ Hwf game_id player) as (Hlen & _ & Hall).
  exists (recorded (snd (run txs (init_state balances))) game_id player).
  split; [reflexivity|]. split; [done|]. apply Hall.
Qed.

(** X12.  After any run of calls no two [game-won] events name the same
    game, and every event names a stored game that is won by the winner the
    event reports: a game is paid out at most once. *)
Theorem each_game_won_once balances txs :
  NoDup (ev_game_id <$> events (snd (run txs (init_state balances)))) /\
  forall e,
    e ∈ events (snd (run txs (init_state balances))) ->
    exists g,
      games (snd (run txs (init_state balances))) !! ev_game_id e = Some g /\
      status g = "won"%string /\ winner g = Some (ev_winner e).
Proof.
  apply (wf_events _ (well_formed_run txs _ (well_formed_init balances))).
Qed.

(** X13.  After any run of calls the last guess on record for the winner of
    a game is the secret of that game. *)
Theorem winner_guessed_secret_last balances txs game_id g w :
  games (snd (run txs (init_state balances))) !! game_id = Some g ->
  winner g = Some w ->
  last (recorded (snd (run txs (init_state balances))) game_id w)
  = Some (secret_number g).
Proof.
  intros H Hw.
  destruct (wf_game _ (well_formed_run txs _ (well_formed_init balances)) _ _ H)
    as (_ & _ & Hlast).
  by apply Hlast.
Qed.

Lemma winner_guessed_secret_last_witness :
  last (recorded single_number_won 0 wallet_1)
  = Some (secret_number
            (merge_won (new_game (simnet_env deployer 5) 42 42 1000000 sample_hash)
               1 wallet_1)).
Proof.
  apply (winner_guessed_secret_last sample_ledger
           [(simnet_env deployer 5, CreateGame 42 42 1000000);
            (simnet_env wallet_1 6, Guess 0 42)] 0).
  - vm_compute. reflexivity.
  - reflexivity.
Defined.

(** ** How a stored game changes *)

Lemma evolves_refl g : evolves g g.
Proof. unfold evolves. split_all; try done; lia. Qed.

Lemma evolves_trans g1 g2 g3 : evolves g1 g2 -> evolves g2 g3 -> evolves g1 g3.
Proof.
  intros (Hc & Hs & Hlo & Hhi & Hf & Hat & Hn & Hfix & Hp)
         (Hc' & Hs' & Hlo' & Hhi' & Hf' & Hat' & Hn' & Hfix' & Hp').
  unfold evolves. split_all; try congruence; try lia.
  - intros Hst. rewrite Hfix', Hfix; try done. by rewrite Hfix.
  - intros Hst.
    destruct (decide (status g2 = "active"%string)) as [Hact|Hact].
    + specialize (Hp Hact). specialize (Hp' Hst). lia.
    + rewrite (Hfix' Hact) in Hst. done.
Qed.

Lemma exec_call_evolves env c s r s' game_id g :
  exec_call env c s = (r, s') ->
  game_id < total_games s ->
  games s !! game_id = Some g ->
  total_games s <= total_games s' /\
  exists g', games s' !! game_id = Some g' /\ evolves g g'.
Proof.
  intros H Hid Hg. destruct c as [lo hi fee|gid number]; cbn [exec_call] in H.
  - destruct (call_public (create_game env lo hi fee) s) as [r0 s0] eqn:Hc.
    injection H as <- <-. destruct r0 as [v|code|e];
      [|rewrite (call_public_failed _ _ _ _ Hc) by done;
        split; [lia|]; exists g; split; [done|apply evolves_refl]..].
    apply create_game_ok in Hc as (hash & _ & _ & -> & ->). cbn [total_games games].
    split; [lia|]. exists g. rewrite lookup_insert_ne by lia.
    split; [done|apply evolves_refl].
  - destruct (call_public (guess env gid number) s) as [r0 s0] eqn:Hc.
    injection H as <- <-.
    destruct (guess_cases _ _ _ _ _ _ Hc) as [->|[b ->]].
    { split; [lia|]. exists g. split; [done|apply evolves_refl]. }
    apply guess_ok_shape in Hc
      as (game & game' & Hgame & _ & _ & _ & _ & -> & -> & _ & _ & Hev & _).
    split; [lia|]. rewrite lookup_insert. case_decide.
    + subst gid. exists game'. split; [done|]. congruence.
    + exists g. split; [done|apply evolves_refl].
Qed.

(** X14.  Through any further run of calls a stored game keeps its creator,
    secret, bounds, fee and creation height; its guess count never
    decreases; once it is no longer active it never changes again; and while
    it is active its pool never decreases. *)
Theorem stored_game_evolves txs : forall s game_id g,
  game_id < total_games s ->
  games s !! game_id = Some g ->
  exists g', games (snd (run txs s)) !! game_id = Some g' /\ evolves g g'.
Proof.
  induction txs as [|[env c] rest IH]; intros s game_id g Hid Hg.
  - exists g. split; [done|apply evolves_refl].
  - cbn [run]. destruct (exec_call env c s) as [r s1] eqn:Hstep.
    destruct (exec_call_evolves _ _ _ _ _ _ _ Hstep Hid Hg) as (Htot & g1 & Hg1 & Hev1).
    destruct (IH s1 game_id g1) as (g' & Hg' & Hev'); [lia|done|].
    destruct (run rest s1) as [rs s2]. cbn [snd] in *.
    exists g'. split; [done|]. by apply (evolves_trans _ g1).
Qed.

Lemma stored_game_evolves_witness :
  exists g',
    games (snd (run (ten_misses wallet_1) paid_game_open)) !! 0 = Some g' /\
    evolves (sample_game 100 0 0) g'.
Proof.
  assert (0 < total_games paid_game_open) as Hid by by_compute.
  assert (games paid_game_open !! 0 = Some (sample_game 100 0 0)) as Hgame
    by by_compute.
  exact (stored_game_evolves (ten_misses wallet_1) paid_game_open 0
           (sample_game 100 0 0) Hid Hgame).
Defined.

(** ** The ledger *)

Lemma move_stx_other amount a b c (m : gmap principal N) :
  c <> a -> c <> b -> move_stx amount a b m !! c = m !! c.
Proof.
  intros Ha Hb. unfold move_stx.
  rewrite lookup_insert_ne by congruence. by rewrite lookup_insert_ne by congruence.
Qed.

Lemma pay_fee_other env game c (b : gmap principal N) :
  c <> tx_sender env -> c <> contract_principal env ->
  pay_fee env game b !! c = b !! c.
Proof.
  intros Ha Hb. unfold pay_fee. destruct (0 <? entry_fee game); [|done].
  by apply move_stx_other.
Qed.

(** The contract's balance after the fee step, whenever the step succeeds. *)
Lemma pay_fee_contract_charged env s game :
  entry_fee game = 0 \/
    (tx_sender env <> contract_principal env /\
     entry_fee game <= stx_get_balance (tx_sender env) s) ->
  default 0 (pay_fee env game (stx_balances s) !! contract_principal env)
  = stx_get_balance (contract_principal env) s + entry_fee game.
Proof.
  intros [Hz|[Hc _]].
  - unfold pay_fee, stx_get_balance. rewrite Hz. cbn. lia.
  - by apply pay_fee_contract.
Qed.

(** X15.  A call of [guess] by a caller other than the contract, whatever
    it answers, leaves the sum of the caller's and the contract's balances
    unchanged and does not touch the balance of anyone else. *)
Theorem guess_conserves_stx env s game_id number r s' :
  call_public (guess env game_id number) s = (r, s') ->
  tx_sender env <> contract_principal env ->
  stx_get_balance (tx_sender env) s' + stx_get_balance (contract_principal env) s'
  = stx_get_balance (tx_sender env) s + stx_get_balance (contract_principal env) s /\
  forall p,
    p <> tx_sender env -> p <> contract_principal env ->
    stx_get_balance p s' = stx_get_balance p s.
Proof.
  intros H Hc. destruct (guess_cases _ _ _ _ _ _ H) as [->|[b ->]]; [done|].
  apply guess_ok in H
    as (game & _ & _ & _ & Hpay & _ & _ & _ & _ & Hcase).
  assert (entry_fee game <= stx_get_balance (tx_sender env) s) as Hfee
    by (destruct Hpay as [->|[_ ?]]; [lia|done]).
  pose proof (pay_fee_sender env game (stx_balances s) Hc) as Hsender.
  pose proof (pay_fee_contract env game (stx_balances s) Hc) as Hhouse.
  unfold stx_get_balance in *.
  destruct Hcase as [(_ & _ & _ & _ & Hcover & ->)|(_ & _ & ->)];
    cbn [won_state missed_state stx_balances].
  - split.
    + rewrite move_stx_recipient, move_stx_sender by congruence. lia.
    + intros p Hp1 Hp2. rewrite move_stx_other by done. by rewrite pay_fee_other.
  - split; [lia|]. intros p Hp1 Hp2. by rewrite pay_fee_other.
Qed.

Lemma guess_conserves_stx_witness :
  stx_get_balance wallet_1
    (missed_state (simnet_env wallet_1 6) paid_game_open 0 60 (sample_game 100 0 0))
  + stx_get_balance "deployer.digiwin"
      (missed_state (simnet_env wallet_1 6) paid_game_open 0 60 (sample_game 100 0 0))
  = stx_get_balance wallet_1 paid_game_open
    + stx_get_balance "deployer.digiwin" paid_game_open.
Proof.
  assert (call_public (guess (simnet_env wallet_1 6) 0 60) paid_game_open
          = (TxOk false,
             missed_state (simnet_env wallet_1 6) paid_game_open 0 60
               (sample_game 100 0 0))) as Hcall by by_compute.
  assert (tx_sender (simnet_env wallet_1 6) <> contract_principal (simnet_env wallet_1 6))
    as Hcaller by by_compute.
  exact (proj1 (guess_conserves_stx (simnet_env wallet_1 6) paid_game_open 0 60 _ _
                  Hcall Hcaller)).
Defined.

(** ** Custody *)

Lemma total_pool_comm (j1 j2 : N) (z1 z2 : Game) (y : N) :
  prize_pool z1 + (prize_pool z2 + y) = prize_pool z2 + (prize_pool z1 + y).
Proof. lia. Qed.

Lemma total_pool_insert_new (m : gmap N Game) i g :
  m !! i = None -> total_pool (<[i := g]> m) = prize_pool g + total_pool m.
Proof.
  intros H. unfold total_pool.
  rewrite map_fold_insert_L; [done| |done]. intros. apply total_pool_comm; done.
Qed.

Lemma total_pool_lookup (m : gmap N Game) i g :
  m !! i = Some g -> total_pool m = prize_pool g + total_pool (delete i m).
Proof.
  intros H. unfold total_pool.
  rewrite (map_fold_delete_L _ _ i g m); [done| |done].
  intros. apply total_pool_comm; done.
Qed.

Lemma total_pool_update (m : gmap N Game) i g g' :
  m !! i = Some g ->
  total_pool (<[i := g']> m) + prize_pool g = total_pool m + prize_pool g'.
Proof.
  intros H. rewrite (total_pool_lookup m i g H).
  rewrite <- insert_delete_eq.
  rewrite total_pool_insert_new by apply lookup_delete_eq. lia.
Qed.

Lemma exec_call_covered env c s r s' :
  exec_call env c s = (r, s') ->
  well_formed s ->
  total_pool (games s) <= stx_get_balance (contract_principal env) s ->
  total_pool (games s') <= stx_get_balance (contract_principal env) s'.
Proof.
  intros H Hwf Hcov. destruct c as [lo hi fee|gid number]; cbn [exec_call] in H.
  - destruct (call_public (create_game env lo hi fee) s) as [r0 s0] eqn:Hc.
    injection H as <- <-. destruct r0 as [v|code|e];
      [|by rewrite (call_public_failed _ _ _ _ Hc)..].
    apply create_game_ok in Hc as (hash & _ & _ & -> & ->).
    unfold stx_get_balance in *. cbn [games stx_balances].
    rewrite total_pool_insert_new; [by cbn|].
    apply eq_None_not_Some. rewrite (wf_dense _ Hwf). lia.
  - destruct (call_public (guess env gid number) s) as [r0 s0] eqn:Hc.
    injection H as <- <-.
    destruct (guess_cases _ _ _ _ _ _ Hc) as [->|[b ->]]; [done|].
    apply guess_ok in Hc
      as (game & Hg & _ & _ & Hpay & _ & _ & _ & _ & Hcase).
    pose proof (pay_fee_contract_charged env s game Hpay) as Hhouse.
    pose proof (total_pool_lookup _ _ _ Hg) as Hsum.
    unfold stx_get_balance in *.
    destruct Hcase as [(_ & _ & Hne & _ & Hcover & ->)|(_ & _ & ->)];
      cbn [won_state missed_state stx_balances games].
    + pose proof (total_pool_update (games s) gid game
                    (merge_won game (guess_count game + 1) (tx_sender env)) Hg) as Hup.
      cbn [merge_won prize_pool] in Hup.
      rewrite move_stx_sender by congruence. lia.
    + pose proof (total_pool_update (games s) gid game
                    (merge_continue game (prize_pool game + entry_fee game)
                       (guess_count game + 1)) Hg) as Hup.
      cbn [merge_continue prize_pool] in Hup. lia.
Qed.

Lemma run_covered c txs : forall s,
  Forall (fun tx => contract_principal tx.1 = c) txs ->
  well_formed s ->
  total_pool (games s) <= stx_get_balance c s ->
  total_pool (games (snd (run txs s))) <= stx_get_balance c (snd (run txs s)).
Proof.
  induction txs as [|[env call] rest IH]; intros s Hall Hwf Hcov; [done|].
  apply Forall_cons in Hall as [Henv Hrest]. cbn [fst] in Henv. subst c.
  cbn [run]. destruct (exec_call env call s) as [r s1] eqn:Hstep.
  pose proof (exec_call_covered _ _ _ _ _ Hstep Hwf Hcov) as Hcov1.
  assert (well_formed s1) as Hwf1.
  { pose proof (well_formed_run [(env, call)] s Hwf) as H1.
    cbn [run] in H1. by rewrite Hstep in H1. }
  specialize (IH s1 Hrest Hwf1 Hcov1). by destruct (run rest s1).
Qed.

(** X16.  After any run of calls made to one contract, the contract's
    balance covers the sum of the pools of all stored games, hence the pool of
    each of them. *)
Theorem pools_covered c balances txs :
  Forall (fun tx => contract_principal tx.1 = c) txs ->
  total_pool (games (snd (run txs (init_state balances))))
  <= stx_get_balance c (snd (run txs (init_state balances))) /\
  forall game_id g,
    games (snd (run txs (init_state balances))) !! game_id = Some g ->
    prize_pool g <= stx_get_balance c (snd (run txs (init_state balances))).
Proof.
  intros Hall.
  assert (total_pool (games (snd (run txs (init_state balances))))
          <= stx_get_balance c (snd (run txs (init_state balances)))) as Hcov.
  { apply run_covered; [done|apply well_formed_init|].
    unfold total_pool. cbn [init_state games]. rewrite map_fold_empty. lia. }
  split; [done|]. intros game_id g Hg.
  rewrite (total_pool_lookup _ _ _ Hg) in Hcov. lia.
Qed.

Lemma pools_covered_witness :
  total_pool (games (paid_game_full wallet_1))
  <= stx_get_balance "deployer.digiwin" (paid_game_full wallet_1).
Proof.
  assert (Forall (fun tx : Env * Call => contract_principal tx.1 = "deployer.digiwin"%string)
            ((simnet_env deployer 5, CreateGame 1 100 100) :: ten_misses wallet_1))
    as Hall by (repeat constructor).
  exact (proj1 (pools_covered "deployer.digiwin" sample_ledger _ Hall)).
Defined.

(** ** What a call touches *)

(** X17.  After a guess that answers [(ok b)], [get-player-guesses] for the
    caller and that game answers the previous list with the number appended,
    the game's log ends with the attempt (caller, number, block height), and
    every other history is as before. *)
Theorem guess_is_recorded env s game_id number b s' :
  call_public (guess env game_id number) s = (TxOk b, s') ->
  call_read_only (get_player_guesses game_id (tx_sender env)) s'
  = Some (recorded s game_id (tx_sender env) ++ [number]) /\
  logged s' game_id
  = logged s game_id
    ++ [ {| ga_player := tx_sender env; ga_guess := number;
            ga_timestamp := block_height env |} ] /\
  (forall other player,
     (other, player) <> (game_id, tx_sender env) ->
     call_read_only (get_player_guesses other player) s'
     = call_read_only (get_player_guesses other player) s) /\
  forall other, other <> game_id -> logged s' other = logged s other.
Proof.
  intros H.
  apply guess_ok_shape in H
    as (game & game' & _ & _ & _ & _ & _ & _ & _ & Hpg & Hgg & _).
  split_all.
  - clar_step. rewrite Hpg, lookup_insert_eq. reflexivity.
  - by rewrite (logged_insert _ _ _ _ game_id Hgg), decide_True.
  - intros other player Hne. clar_step.
    rewrite Hpg, lookup_insert_ne by congruence. reflexivity.
  - intros other Hne.
    by rewrite (logged_insert _ _ _ _ other Hgg), decide_False.
Qed.

Lemma guess_is_recorded_witness :
  call_read_only (get_player_guesses 0 wallet_1)
    (missed_state (simnet_env wallet_1 6) paid_game_open 0 60 (sample_game 100 0 0))
  = Some (recorded paid_game_open 0 wallet_1 ++ [60]).
Proof.
  assert (call_public (guess (simnet_env wallet_1 6) 0 60) paid_game_open
          = (TxOk false,
             missed_state (simnet_env wallet_1 6) paid_game_open 0 60
               (sample_game 100 0 0))) as Hcall by by_compute.
  exact (proj1 (guess_is_recorded (simnet_env wallet_1 6) paid_game_open 0 60 _ _
                  Hcall)).
Defined.

(** X18.  A guess answers [(ok b)] only on an active game and for a number
    within its bounds; [b] is [true] exactly when the number is the secret;
    afterwards [is-game-active] answers [(ok (not b))], and after [(ok true)]
    [get-game-winner] answers the caller. *)
Theorem guess_answer_tells_secret env s game_id number b s' :
  call_public (guess env game_id number) s = (TxOk b, s') ->
  exists game,
    games s !! game_id = Some game /\
    status game = "active"%string /\
    min_number game <= number <= max_number game /\
    (b = true <-> number = secret_number game) /\
    call_read_only (is_game_active game_id) s' = Some (Ok (negb b)) /\
    (b = true ->
     call_read_only (get_game_winner game_id) s' = Some (Some (Some (tx_sender env)))).
Proof.
  intros H.
  apply guess_ok_shape in H
    as (game & game' & Hg & Hact & Hin & _ & _ & _ & Hgames & _ & _ & _ & _ & Hcase).
  exists game. split_all; try done; try apply Hin.
  - destruct Hcase as [(-> & Hn & _)|(-> & Hn & _)]; split; congruence.
  - clar_step. rewrite Hgames, lookup_insert_eq.
    destruct Hcase as [(-> & _ & -> & _)|(-> & _ & -> & _)].
    + reflexivity.
    + cbn [merge_continue status]. by rewrite Hact.
  - intros ->. destruct Hcase as [(_ & _ & -> & _)|(Hb & _)]; [|done].
    clar_step. by rewrite Hgames, lookup_insert_eq.
Qed.

Lemma guess_answer_tells_secret_witness :
  exists game,
    games paid_game_open !! 0 = Some game /\
    status game = "active"%string /\
    min_number game <= 59 <= max_number game /\
    (true = true <-> 59 = secret_number game) /\
    call_read_only (is_game_active 0)
      (won_state (simnet_env wallet_1 6) paid_game_open 0 59 (sample_game 100 0 0))
    = Some (Ok (negb true)) /\
    (true = true ->
     call_read_only (get_game_winner 0)
       (won_state (simnet_env wallet_1 6) paid_game_open 0 59 (sample_game 100 0 0))
     = Some (Some (Some (tx_sender (simnet_env wallet_1 6))))).
Proof.
  assert (call_public (guess (simnet_env wallet_1 6) 0 59) paid_game_open
          = (TxOk true,
             won_state (simnet_env wallet_1 6) paid_game_open 0 59
               (sample_game 100 0 0))) as Hcall by by_compute.
  exact (guess_answer_tells_secret (simnet_env wallet_1 6) paid_game_open 0 59 _ _
           Hcall).
Defined.

(** X19.  A call of [create-game], whatever it answers, leaves the ledger,
    both histories, the events and every game other than the one under the
    current [total-games] as they were. *)
Theorem create_game_touches_one_entry env s lo hi fee :
  stx_balances (snd (call_public (create_game env lo hi fee) s)) = stx_balances s /\
  player_guesses (snd (call_public (create_game env lo hi fee) s)) = player_guesses s /\
  game_guesses (snd (call_public (create_game env lo hi fee) s)) = game_guesses s /\
  events (snd (call_public (create_game env lo hi fee) s)) = events s /\
  forall game_id,
    game_id <> total_games s ->
    games (snd (call_public (create_game env lo hi fee) s)) !! game_id
    = games s !! game_id.
Proof.
  destruct (call_public (create_game env lo hi fee) s) as [r s'] eqn:H.
  cbn [snd]. destruct r as [id|code|e];
    [|by rewrite (call_public_failed _ _ _ _ H)..].
  apply create_game_ok in H as (hash & _ & _ & -> & ->).
  cbn. split_all; try done. intros game_id Hne. by rewrite lookup_insert_ne.
Qed.

(** X20.  A call of [guess], whatever it answers, leaves [total-games] and
    every other game as they were. *)
Theorem guess_touches_one_game env s game_id number :
  total_games (snd (call_public (guess env game_id number) s)) = total_games s /\
  forall other,
    other <> game_id ->
    games (snd (call_public (guess env game_id number) s)) !! other = games s !! other.
Proof.
  destruct (call_public (guess env game_id number) s) as [r s'] eqn:H.
  cbn [snd]. destruct (guess_cases _ _ _ _ _ _ H) as [->|[b ->]]; [done|].
  apply guess_ok_shape in H
    as (game & game' & _ & _ & _ & _ & _ & Htot & Hgames & _).
  split; [done|]. intros other Hne. by rewrite Hgames, lookup_insert_ne.
Qed.

(** * Properties of the driver script *)

(** ** The sender key *)

Lemma trim_start_white ws s :
  Forall (fun c => is_white_space c = true) ws -> trim_start (ws ++ s) = trim_start s.
Proof. induction 1 as [|c ws Hc _ IH]; [done|]. cbn. by rewrite Hc. Qed.

Lemma trim_start_solid s :
  match s with c :: _ => is_white_space c = false | [] => True end ->
  trim_start s = s.
Proof. destruct s as [|c s]; [done|]. cbn. by intros ->. Qed.

Lemma trim_core ws1 ws2 body :
  Forall (fun c => is_white_space c = true) ws1 ->
  Forall (fun c => is_white_space c = true) ws2 ->
  Forall (fun c => is_white_space c = false) body ->
  trim (ws1 ++ body ++ ws2) = body.
Proof.
  intros H1 H2 Hb. unfold trim. rewrite trim_start_white by done.
  destruct body as [|c body].
  - cbn. rewrite <- (app_nil_r ws2) at 1. rewrite trim_start_white by done. done.
  - rewrite (trim_start_solid ((c :: body) ++ ws2))
      by (cbn; by apply Forall_cons in Hb as [? _]).
    rewrite reverse_app. rewrite trim_start_white by (by apply Forall_reverse).
    rewrite trim_start_solid; [by rewrite reverse_involutive|].
    destruct (reverse (c :: body)) as [|d r] eqn:Hr; [done|].
    assert (d ∈ c :: body) as Hd by (apply elem_of_reverse; rewrite Hr; left).
    by apply (proj1 (Forall_forall _ _) Hb).
Qed.

Lemma hex_digit_range c : is_hex_digit c = true -> 48 <= c <= 102.
Proof.
  unfold is_hex_digit. intros H.
  destruct (N.leb_spec 48 c), (N.leb_spec c 102); [lia|..];
    repeat match type of H with
           | context [?a <=? ?b] => destruct (N.leb_spec a b)
           end; cbn in H; first [discriminate | lia].
Qed.

Lemma hex_not_white c : is_hex_digit c = true -> is_white_space c = false.
Proof.
  intros H. apply hex_digit_range in H. unfold is_white_space.
  rewrite !(proj2 (N.eqb_neq c _)) by lia.
  by rewrite (proj2 (N.leb_gt 8192 c)) by lia.
Qed.

(** X21.  A key made of hexadecimal digits, with or without the prefix [0x]
    or [0X] and with any white space around it, is normalized to the bare
    digits. *)
Theorem normalizeSenderKey_hex ws1 ws2 prefix digits :
  Forall (fun c => is_white_space c = true) ws1 ->
  Forall (fun c => is_white_space c = true) ws2 ->
  Forall (fun c => is_hex_digit c = true) digits ->
  prefix = [] \/ prefix = units "0x" \/ prefix = units "0X" ->
  normalizeSenderKey (ws1 ++ prefix ++ digits ++ ws2) = digits.
Proof.
  intros H1 H2 Hd Hp. unfold normalizeSenderKey.
  assert (Forall (fun c => is_white_space c = false) (prefix ++ digits)) as Hbody.
  { apply Forall_app. split.
    - destruct Hp as [->|[->| ->]]; vm_compute; repeat constructor.
    - eapply Forall_impl; [done|]. apply hex_not_white. }
  assert (trim (match ws1 ++ prefix ++ digits ++ ws2 with
                | [] => units ""
                | _ => ws1 ++ prefix ++ digits ++ ws2
                end) = prefix ++ digits) as ->.
  { destruct (ws1 ++ prefix ++ digits ++ ws2) eqn:Heq.
    - apply app_eq_nil in Heq as [_ Heq]. apply app_eq_nil in Heq as [-> Heq].
      apply app_eq_nil in Heq as [-> _]. done.
    - rewrite <- Heq. rewrite (app_assoc prefix). by apply trim_core. }
  change (units "0x") with [48; 120] in *. change (units "0X") with [48; 88] in *.
  destruct Hp as [->|[->| ->]]; [|reflexivity..].
  cbn [app]. destruct digits as [|a [|b rest]]; [done| |].
  - cbn [starts_with]. by rewrite !andb_false_r.
  - apply Forall_cons in Hd as [_ Hd]. apply Forall_cons in Hd as [Hb _].
    cbn [starts_with].
    destruct (N.eqb_spec b 120) as [->|]; [by vm_compute in Hb|].
    destruct (N.eqb_spec b 88) as [->|]; [by vm_compute in Hb|].
    by rewrite !andb_false_r.
Qed.

(** ** The mode flag *)

Lemma js_find_skip {A} (p : A -> bool) before l :
  Forall (fun x => p x = false) before -> js_find p (before ++ l) = js_find p l.
Proof. induction 1 as [|x before Hx _ IH]; [done|]. cbn. by rewrite Hx. Qed.

Lemma js_split_nonempty sep s : js_split sep s <> [].
Proof. destruct s as [|c s]; cbn; [done|]. destruct (c =? sep); [done|]. by destruct (js_split sep s). Qed.

Lemma js_split_piece sep piece rest :
  sep ∉ piece ->
  rest = [] \/ (exists r, rest = sep :: r) ->
  exists pieces, js_split sep (piece ++ rest) = piece :: pieces.
Proof.
  intros Hno Hrest. induction piece as [|c piece IH].
  - destruct Hrest as [->|[r ->]]; cbn; [by eexists|].
    rewrite N.eqb_refl. by eexists.
  - apply not_elem_of_cons in Hno as [Hc Hno]. destruct (IH Hno) as [pieces Hp].
    cbn. rewrite (proj2 (N.eqb_neq c sep)) by done. rewrite Hp. by eexists.
Qed.

(** X22.  The first argument that starts with [--mode=] decides [MODE]: it
    is the text between the first [=] and the next one (or the end), and
    [info] when that text is empty; later arguments and anything after a
    second [=] are ignored. *)
Theorem MODE_of_flag before value rest after :
  Forall (fun arg => starts_with arg (units "--mode=") = false) before ->
  61 ∉ value ->
  rest = [] \/ (exists r, rest = 61 :: r) ->
  MODE (before ++ (units "--mode=" ++ value ++ rest) :: after)
  = match value with [] => units "info" | _ => value end.
Proof.
  intros Hbefore Hno Hrest. unfold MODE.
  rewrite js_find_skip by done. cbn [js_find].
  change (units "--mode=") with [45; 45; 109; 111; 100; 101; 61] in *.
  cbn [starts_with app]. rewrite !N.eqb_refl. cbn [andb].
  destruct (js_split_piece 61 value rest Hno Hrest) as [pieces Hp].
  cbn [js_split]. 
  repeat (rewrite (proj2 (N.eqb_neq _ 61)) by done).
  rewrite N.eqb_refl. rewrite Hp.
  by destruct value.
Qed.

(** ** Retries *)

Lemma requests_app t1 t2 : requests (t1 ++ t2) = (requests t1 + requests t2)%nat.
Proof. induction t1 as [|[] t1 IH]; cbn; by rewrite ?IH. Qed.

Lemma paused_app t1 t2 : paused (t1 ++ t2) = paused t1 + paused t2.
Proof. induction t1 as [|[] t1 IH]; cbn; rewrite ?IH; lia. Qed.

Lemma failed_attempts_count i k :
  requests (failed_attempts i k) = k /\ paused (failed_attempts i k) = 2000 * N.of_nat k.
Proof.
  revert i. induction k as [|k IH]; intros i; [done|].
  unfold failed_attempts in *. cbn [seq flat_map].
  rewrite requests_app, paused_app. destruct (IH (S i)) as [-> ->]. cbn. lia.
Qed.

Section ReadTotalGames.

Context {J : Type} (Number : N -> J) (zero : J).
Variable fetch : nat -> Settled ReadOnlyResult.

Lemma readTotalGames_loop_answer k : forall fuel i res,
  (i + k < maxRetries)%nat ->
  (k < fuel)%nat ->
  (forall j, (j < k)%nat -> exists reason, fetch (i + j)%nat = Rejected reason) ->
  fetch (i + k)%nat = Fulfilled res ->
  readTotalGames_loop Number zero fetch fuel i
  = (failed_attempts i k ++ [Attempt],
     Returns (if is_uint_tag (res_type res) then Number (res_value res) else zero)).
Proof.
  induction k as [|k IH]; intros fuel i res Hi Hfuel Hrej Hres.
  - destruct fuel as [|fuel]; [lia|]. cbn [readTotalGames_loop].
    rewrite (proj2 (Nat.ltb_lt i maxRetries)) by lia.
    rewrite Nat.add_0_r in Hres. by rewrite Hres.
  - destruct fuel as [|fuel]; [lia|]. cbn [readTotalGames_loop].
    rewrite (proj2 (Nat.ltb_lt i maxRetries)) by lia.
    destruct (Hrej 0%nat) as [reason Hfail]; [lia|].
    rewrite Nat.add_0_r in Hfail. rewrite Hfail.
    rewrite (IH fuel (S i) res); [|lia|lia| |].
    + rewrite (proj2 (Nat.ltb_lt i (maxRetries - 1))) by (unfold maxRetries in *; lia).
      unfold failed_attempts. cbn [seq flat_map]. by rewrite <- !app_assoc.
    + intros j Hj. destruct (Hrej (S j)) as [r Hr]; [lia|].
      exists r. by rewrite <- Hr, Nat.add_succ_comm.
    + by rewrite <- Hres, Nat.add_succ_comm.
Qed.

(** X23.  When the first [k < 5] calls are rejected and the next one is
    answered, [readTotalGames] returns after [k + 1] calls and [k] pauses of
    2000 ms; it returns the number of the value when the [type] of the answer
    is the number 1, and 0 for an answer of any other type. *)
Theorem readTotalGames_first_answer k res :
  (k < maxRetries)%nat ->
  (forall j, (j < k)%nat -> exists reason, fetch j = Rejected reason) ->
  fetch k = Fulfilled res ->
  snd (readTotalGames Number zero fetch)
  = Returns (if is_uint_tag (res_type res) then Number (res_value res) else zero) /\
  requests (fst (readTotalGames Number zero fetch)) = S k /\
  paused (fst (readTotalGames Number zero fetch)) = 2000 * N.of_nat k.
Proof.
  intros Hk Hrej Hres. unfold readTotalGames.
  rewrite (readTotalGames_loop_answer k (S maxRetries) 0 res); try done.
  - cbn [fst snd]. rewrite requests_app, paused_app.
    destruct (failed_attempts_count 0 k) as [-> ->]. cbn. split; [done|]. split; lia.
  - unfold maxRetries in *. lia.
Qed.

(** X24.  When five calls in a row are rejected, [readTotalGames] throws
    after exactly five calls, each followed by a warning, with a pause of
    2000 ms between the calls and none after the last. *)
Theorem readTotalGames_gives_up :
  (forall j, (j < maxRetries)%nat -> exists reason, fetch j = Rejected reason) ->
  readTotalGames Number zero fetch
  = ([Attempt; Warn 1; Delay 2000; Attempt; Warn 2; Delay 2000;
      Attempt; Warn 3; Delay 2000; Attempt; Warn 4; Delay 2000;
      Attempt; Warn 5],
     Throws "Failed to read total games after multiple attempts").
Proof.
  intros Hrej. unfold maxRetries in Hrej.
  destruct (Hrej 0%nat) as [r0 H0]; [lia|]. destruct (Hrej 1%nat) as [r1 H1]; [lia|].
  destruct (Hrej 2%nat) as [r2 H2]; [lia|]. destruct (Hrej 3%nat) as [r3 H3]; [lia|].
  destruct (Hrej 4%nat) as [r4 H4]; [lia|].
  unfold readTotalGames. cbn. by rewrite H0, H1, H2, H3, H4.
Qed.

End ReadTotalGames.

Section ContractCall.

Variable functionName : string.
Variable broadcast : nat -> Settled BroadcastResponse.

Lemma contractCall_loop_retry fuel i :
  (i < maxRetries)%nat ->
  accepted (broadcast i) = false ->
  contractCall_loop functionName broadcast (S fuel) i
  = ([Attempt; Warn (i + 1)]
       ++ (if (i <? maxRetries - 1)%nat then [Delay 2000] else [])
       ++ fst (contractCall_loop functionName broadcast fuel (S i)),
     snd (contractCall_loop functionName broadcast fuel (S i))).
Proof.
  intros Hi Hno. cbn [contractCall_loop].
  rewrite (proj2 (Nat.ltb_lt i maxRetries)) by lia.
  destruct (contractCall_loop functionName broadcast fuel (S i)) as [later c].
  destruct (broadcast i) as [resp|reason]; [|done].
  cbn in Hno. apply negb_false_iff in Hno. by rewrite Hno.
Qed.

Lemma contractCall_loop_done fuel i resp :
  (i < maxRetries)%nat ->
  broadcast i = Fulfilled resp ->
  has_error resp = false ->
  contractCall_loop functionName broadcast (S fuel) i
  = ([Attempt; Log], Returns (txid_of resp)).
Proof.
  intros Hi Hresp Hok. cbn [contractCall_loop].
  rewrite (proj2 (Nat.ltb_lt i maxRetries)) by lia.
  destruct (contractCall_loop functionName broadcast fuel (S i)) as [later c].
  by rewrite Hresp, Hok.
Qed.

Lemma contractCall_loop_accepted k : forall fuel i resp,
  (i + k < maxRetries)%nat ->
  (k < fuel)%nat ->
  (forall j, (j < k)%nat -> accepted (broadcast (i + j)%nat) = false) ->
  broadcast (i + k)%nat = Fulfilled resp ->
  has_error resp = false ->
  contractCall_loop functionName broadcast fuel i
  = (failed_attempts i k ++ [Attempt; Log], Returns (txid_of resp)).
Proof.
  induction k as [|k IH]; intros fuel i resp Hi Hfuel Hrej Hres Hok.
  - destruct fuel as [|fuel]; [lia|]. rewrite Nat.add_0_r in Hres.
    by rewrite (contractCall_loop_done fuel i resp) by (done || lia).
  - destruct fuel as [|fuel]; [lia|].
    rewrite contractCall_loop_retry;
      [|lia|by rewrite <- (Nat.add_0_r i); apply Hrej; lia].
    rewrite (IH fuel (S i) resp); [|lia|lia| | |done].
    + rewrite (proj2 (Nat.ltb_lt i (maxRetries - 1))) by (unfold maxRetries in *; lia).
      unfold failed_attempts. cbn [seq flat_map fst snd]. by rewrite <- !app_assoc.
    + intros j Hj. rewrite Nat.add_succ_comm. apply Hrej. lia.
    + by rewrite <- Hres, Nat.add_succ_comm.
Qed.

(** X25.  [contractCall] returns the transaction id of the first attempt,
    among the first five, whose broadcast resolves without an [error] field:
    an attempt that is rejected or whose response carries an error, even with
    a transaction id, is retried after a pause of 2000 ms. *)
Theorem contractCall_first_accepted k resp :
  (k < maxRetries)%nat ->
  (forall j, (j < k)%nat -> accepted (broadcast j) = false) ->
  broadcast k = Fulfilled resp ->
  has_error resp = false ->
  snd (contractCall functionName broadcast) = Returns (txid_of resp) /\
  requests (fst (contractCall functionName broadcast)) = S k /\
  paused (fst (contractCall functionName broadcast)) = 2000 * N.of_nat k.
Proof.
  intros Hk Hrej Hres Hok. unfold contractCall.
  rewrite (contractCall_loop_accepted k (S maxRetries) 0 resp); try done.
  - cbn [fst snd requests paused]. rewrite requests_app, paused_app.
    destruct (failed_attempts_count 0 k) as [-> ->]. cbn. split; [done|]. split; lia.
  - unfold maxRetries in *. lia.
Qed.

Lemma contractCall_loop_bounded fuel : forall i,
  (requests (fst (contractCall_loop functionName broadcast fuel i))
   <= maxRetries - i)%nat /\
  paused (fst (contractCall_loop functionName broadcast fuel i))
  <= 2000 * N.of_nat (maxRetries - 1 - i) /\
  forall message,
    snd (contractCall_loop functionName broadcast fuel i) = Throws message ->
    message = ("Broadcast failed for " ++ functionName ++ " after 5 attempts")%string /\
    forall j, (i <= j < maxRetries)%nat -> (j < i + fuel)%nat ->
              accepted (broadcast j) = false.
Proof.
  induction fuel as [|fuel IH]; intros i.
  - cbn. split; [lia|]. split; [lia|]. intros m [= <-]. split; [done|]. lia.
  - destruct (Nat.ltb_spec i maxRetries) as [Hi|Hi].
    + destruct (accepted (broadcast i)) eqn:Hacc.
      * destruct (broadcast i) as [resp|reason] eqn:Hb; [|done].
        cbn in Hacc. apply negb_true_iff in Hacc.
        rewrite (contractCall_loop_done fuel i resp) by done.
        cbn. split; [unfold maxRetries in *; lia|]. split; [lia|]. done.
      * rewrite contractCall_loop_retry by done. cbn [fst snd].
        destruct (IH (S i)) as (Hreq & Hpause & Hthrow).
        rewrite !requests_app, !paused_app.
        destruct (Nat.ltb_spec i (maxRetries - 1)); cbn [requests paused];
          (split; [unfold maxRetries in *; lia|]);
          (split; [unfold maxRetries in *; lia|]).
        all: intros m Hm; destruct (Hthrow m Hm) as [-> Hall]; (split; [done|]).
        all: intros j Hj Hfuel; destruct (decide (j = i)) as [->|Hne]; [done|].
        all: apply Hall; lia.
    + cbn [contractCall_loop]. rewrite (proj2 (Nat.ltb_ge i maxRetries)) by lia.
      cbn. split; [lia|]. split; [lia|]. intros m [= <-]. split; [done|]. lia.
Qed.

(** X26.  Whatever the node does, [contractCall] makes at most 5 attempts
    and pauses at most 8000 ms in all, and it throws, with the message that
    names the function, only when none of the five attempts was taken as
    done. *)
Theorem contractCall_bounded :
  (requests (fst (contractCall functionName broadcast)) <= 5)%nat /\
  paused (fst (contractCall functionName broadcast)) <= 8000 /\
  forall message,
    snd (contractCall functionName broadcast) = Throws message ->
    message = ("Broadcast failed for " ++ functionName ++ " after 5 attempts")%string /\
    forall j, (j < 5)%nat -> accepted (broadcast j) = false.
Proof.
  unfold contractCall.
  destruct (contractCall_loop_bounded (S maxRetries) 0) as (Hreq & Hpause & Hthrow).
  destruct (contractCall_loop functionName broadcast (S maxRetries) 0) as [trace c].
  cbn [fst snd requests paused] in *. split; [unfold maxRetries in *; lia|].
  split; [unfold maxRetries in *; cbn in Hpause; lia|].
  intros m Hm. destruct (Hthrow m Hm) as [-> Hall]. split; [done|].
  intros j Hj. apply Hall; unfold maxRetries; lia.
Qed.

End ContractCall.

(** ** The driver at sample inputs *)

Lemma normalizeSenderKey_hex_witness :
  normalizeSenderKey ([32; 9] ++ units "0x" ++ units "ABcd12" ++ [10]) = units "ABcd12".
Proof.
  apply (normalizeSenderKey_hex [32; 9] [10] (units "0x") (units "ABcd12")).
  - vm_compute. repeat constructor.
  - vm_compute. repeat constructor.
  - vm_compute. repeat constructor.
  - right. left. reflexivity.
Defined.

Lemma MODE_of_flag_witness :
  MODE ([units "node"; units "digiwin-driver.ts"]
          ++ (units "--mode=" ++ units "create" ++ units "=now") :: [units "--mode=guess"])
  = units "create".
Proof.
  apply (MODE_of_flag [units "node"; units "digiwin-driver.ts"] (units "create")
           (units "=now") [units "--mode=guess"]).
  - vm_compute. repeat constructor.
  - rewrite list_elem_of_In. vm_compute. intuition discriminate.
  - right. by eexists.
Defined.

Lemma readTotalGames_first_answer_witness :
  snd (readTotalGames (fun v => v) 0 flaky_fetch) = Returns 7 /\
  requests (fst (readTotalGames (fun v => v) 0 flaky_fetch)) = 3%nat /\
  paused (fst (readTotalGames (fun v => v) 0 flaky_fetch)) = 2000 * N.of_nat 2.
Proof.
  apply (readTotalGames_first_answer (fun v => v) 0 flaky_fetch 2
           {| res_type := NumberTag 1; res_value := 7 |}).
  - unfold maxRetries. lia.
  - intros j Hj. exists "timeout"%string.
    destruct j as [|[|j]]; [reflexivity|reflexivity|lia].
  - reflexivity.
Defined.

Lemma readTotalGames_gives_up_witness :
  readTotalGames (fun v => v) 0 failing_fetch
  = ([Attempt; Warn 1; Delay 2000; Attempt; Warn 2; Delay 2000;
      Attempt; Warn 3; Delay 2000; Attempt; Warn 4; Delay 2000;
      Attempt; Warn 5],
     Throws "Failed to read total games after multiple attempts").
Proof.
  apply (readTotalGames_gives_up (fun v => v) 0 failing_fetch).
  intros j _. by exists "timeout"%string.
Defined.

Lemma contractCall_first_accepted_witness :
  snd (contractCall "guess" flaky_broadcast) = Returns "0xdef"%string /\
  requests (fst (contractCall "guess" flaky_broadcast)) = 2%nat /\
  paused (fst (contractCall "guess" flaky_broadcast)) = 2000 * N.of_nat 1.
Proof.
  apply (contractCall_first_accepted "guess" flaky_broadcast 1
           (ResponseObject None (Some "0xdef"%string) None None None None)).
  - unfold maxRetries. lia.
  - intros j Hj. destruct j as [|j]; [reflexivity|lia].
  - reflexivity.
  - reflexivity.
Defined.

(** ** Reading a game's status *)

(** X27.  After any run of calls, for every stored game [is-game-active]
    answers [(ok true)] exactly when [get-game-winner] answers
    [(some none)]: a game is reported active if and only if it has no
    winner. *)
Theorem active_iff_no_winner balances txs game_id g :
  games (snd (run txs (init_state balances))) !! game_id = Some g ->
  call_read_only (is_game_active game_id) (snd (run txs (init_state balances)))
  = Some (Ok true)
  <-> call_read_only (get_game_winner game_id) (snd (run txs (init_state balances)))
      = Some (Some None).
Proof.
  intros H.
  destruct (wf_game _ (well_formed_run txs _ (well_formed_init balances)) _ _ H)
    as (Hcons & _).
  clar_step. rewrite H. cbn [fmap option_fmap option_map].
  destruct Hcons as [[Hs Hw]|(Hs & [w Hw] & _)]; rewrite Hs, Hw; by split.
Qed.

Lemma active_iff_no_winner_witness :
  call_read_only (is_game_active 0) single_number_won = Some (Ok true)
  <-> call_read_only (get_game_winner 0) single_number_won = Some (Some None).
Proof.
  apply (active_iff_no_winner sample_ledger
           [(simnet_env deployer 5, CreateGame 42 42 1000000);
            (simnet_env wallet_1 6, Guess 0 42)] 0
           (merge_won (new_game (simnet_env deployer 5) 42 42 1000000 sample_hash)
              1 wallet_1)).
  vm_compute. reflexivity.
Defined.
